(** * crypto-monitoring-tools: indicator engine, signal aggregator and
      token heuristics

    A shallow embedding of the two scripts of the repository:
    - [btc-monitor/monitor.js]: [analyzeKline], [calculateRSI] and
      [generateMarketSignals] of class [BTCMonitor];
    - the meme token hunter: [init] (seen-token pruning),
      [saveSeenTokens], [markAsSeen], [extractContractAddress],
      [detectChain] and [assessRisk] of class [MemeTokenHunter].

    Numbers.  A JavaScript number is modelled by [num]: an exact rational
    for a finite value, plus the three special values that division
    produces ([Infinity], [-Infinity], [NaN]).  Arithmetic on finite values
    is exact, so rounding error, overflow and the sign of zero of binary64
    are idealised away; everything else (division by zero, comparisons with
    [NaN], [Math.round], [Math.min], [Math.abs]) follows the language.

    Strings.  A string is a [string] of code units below 256.  On that
    range [toLowerCase] is a map on single code units and the word
    characters of a regular expression are the ASCII letters, digits and
    the underscore. *)

From stdpp Require Import gmap strings.
From Stdlib Require Import ZArith QArith Qround Qabs Lia Lqa List Sorted Bool Ascii
  String.
Import ListNotations.

Local Open Scope Q_scope.

(** ** JavaScript numbers *)

Inductive num : Type :=
| Fin (q : Q)
| PInf
| NInf
| NaN.

Module Num.

Definition of_nat (n : nat) : num := Fin (inject_Z (Z.of_nat n)).

Definition neg (a : num) : num :=
  match a with
  | Fin x => Fin (- x)
  | PInf => NInf
  | NInf => PInf
  | NaN => NaN
  end.

Definition add (a b : num) : num :=
  match a, b with
  | NaN, _ | _, NaN => NaN
  | Fin x, Fin y => Fin (x + y)
  | PInf, NInf | NInf, PInf => NaN
  | PInf, _ | _, PInf => PInf
  | NInf, _ | _, NInf => NInf
  end.

Definition sub (a b : num) : num := add a (neg b).

(** The infinity whose sign is the sign of [x]; [NaN] for zero. *)
Definition inf_signed (x : Q) (pos : bool) : num :=
  match x ?= 0 with
  | Eq => NaN
  | Gt => if pos then PInf else NInf
  | Lt => if pos then NInf else PInf
  end.

Definition mul (a b : num) : num :=
  match a, b with
  | NaN, _ | _, NaN => NaN
  | Fin x, Fin y => Fin (x * y)
  | Fin x, PInf | PInf, Fin x => inf_signed x true
  | Fin x, NInf | NInf, Fin x => inf_signed x false
  | PInf, PInf | NInf, NInf => PInf
  | PInf, NInf | NInf, PInf => NInf
  end.

Definition div (a b : num) : num :=
  match a, b with
  | NaN, _ | _, NaN => NaN
  | Fin x, Fin y =>
      if Qeq_bool y 0 then inf_signed x true else Fin (x / y)
  | Fin _, (PInf | NInf) => Fin 0
  | PInf, Fin y => match y ?= 0 with Lt => NInf | _ => PInf end
  | NInf, Fin y => match y ?= 0 with Lt => PInf | _ => NInf end
  | (PInf | NInf), (PInf | NInf) => NaN
  end.

(** [a > b], [a < b] and [a === b]: false as soon as one side is [NaN]. *)
Definition gt (a b : num) : bool :=
  match a, b with
  | NaN, _ | _, NaN => false
  | Fin x, Fin y => match x ?= y with Gt => true | _ => false end
  | PInf, (Fin _ | NInf) => true
  | Fin _, NInf => true
  | _, _ => false
  end.

Definition lt (a b : num) : bool := gt b a.

Definition strict_eq (a b : num) : bool :=
  match a, b with
  | Fin x, Fin y => Qeq_bool x y
  | PInf, PInf | NInf, NInf => true
  | _, _ => false
  end.

(** [Math.abs] *)
Definition abs (a : num) : num :=
  match a with
  | Fin x => Fin (Qabs x)
  | PInf | NInf => PInf
  | NaN => NaN
  end.

(** [Math.min] of two arguments *)
Definition min (a b : num) : num :=
  match a, b with
  | NaN, _ | _, NaN => NaN
  | _, _ => if gt a b then b else a
  end.

(** [Math.round]: the nearest integer, a tie going up. *)
Definition round (a : num) : num :=
  match a with
  | Fin x => Fin (inject_Z (Qfloor (x + (1 # 2))))
  | _ => a
  end.

(** The same value: both finite and equal as rationals, or the same
    special value. *)
Definition same (a b : num) : Prop :=
  match a, b with
  | Fin x, Fin y => x == y
  | PInf, PInf | NInf, NInf | NaN, NaN => True
  | _, _ => False
  end.


End Num.

Notation "a =n= b" := (Num.same a b) (at level 70, no associativity).

(** ** The BTC market monitor ([btc-monitor/monitor.js]) *)

Module BTCMonitor.

(** One element of the array built by [fetchKlineData]. *)
Record Candle : Type := mkCandle {
  timestamp : Z;
  open : Q;
  high : Q;
  low : Q;
  close : Q;
  volume : Q
}.

(** [this.config.price_alerts] *)
Record PriceAlerts : Type := mkPriceAlerts {
  sharp_change_percent : Q;
  volume_spike_multiplier : Q
}.

Definition default_price_alerts : PriceAlerts :=
  {| sharp_change_percent := 2; volume_spike_multiplier := 3 |}.

Inductive Trend : Type := bullish | bearish | sideways | unknown.

(** The object returned by [analyzeKline].  A property that the object
    literal does not have is [None]. *)
Record Analysis : Type := mkAnalysis {
  trend : Trend;
  strength : num;
  ma5 : option num;
  ma10 : option num;
  priceChange : option num;
  volumeSpike : option bool;
  currentVolume : option num;
  avgVolume : option num;
  rsi : num
}.

(** [arr.slice(-n)] and [arr.slice(0, -1)] *)
Definition slice_last {A : Type} (n : nat) (arr : list A) : list A :=
  skipn (List.length arr - n) arr.

Definition slice_but_last {A : Type} (arr : list A) : list A :=
  firstn (List.length arr - 1) arr.

(** [arr.reduce((sum, k) => sum + f(k), 0)] *)
Definition sum_by {A : Type} (f : A -> Q) (arr : list A) : num :=
  fold_left (fun sum k => Num.add sum (Fin (f k))) arr (Fin 0).

(** The body of the [for] loop of [calculateRSI], run over the indices
    [idx] with the pair [(gains, losses)] as state.  Reading past the end
    of the array is the [TypeError] of the source: [None]. *)
Fixpoint rsi_loop (klines : list Candle) (idx : list nat)
    (gl : num * num) : option (num * num) :=
  match idx with
  | [] => Some gl
  | i :: rest =>
      match nth_error klines i, nth_error klines (i - 1) with
      | Some ki, Some kp =>
          let change := Num.sub (Fin (close ki)) (Fin (close kp)) in
          if Num.gt change (Fin 0)
          then rsi_loop klines rest (Num.add (fst gl) change, snd gl)
          else rsi_loop klines rest (fst gl, Num.add (snd gl) (Num.abs change))
      | _, _ => None
      end
  end.

Definition calculateRSI (klines : list Candle) (period : nat) : option num :=
  if (List.length klines <? period + 1)%nat then Some (Fin 50)
  else
    match rsi_loop klines (List.seq 1 period) (Fin 0, Fin 0) with
    | None => None
    | Some (gains, losses) =>
        let avgGain := Num.div gains (Num.of_nat period) in
        let avgLoss := Num.div losses (Num.of_nat period) in
        if Num.strict_eq avgLoss (Fin 0) then Some (Fin 100)
        else
          let rs := Num.div avgGain avgLoss in
          let rsi := Num.sub (Fin 100) (Num.div (Fin 100) (Num.add (Fin 1) rs)) in
          Some (Num.div (Num.round (Num.mul rsi (Fin 10))) (Fin 10))
    end.

(** [Math.round(x * k) / k] *)
Definition round_to (k : Q) (x : num) : num :=
  Num.div (Num.round (Num.mul x (Fin k))) (Fin k).

(** [analyzeKline(klines)].  The argument is [None] for a falsy value
    ([null], [undefined]); every array, the empty one too, is truthy.
    The result is [None] where the source would throw. *)
Definition analyzeKline (alerts : PriceAlerts)
    (klines : option (list Candle)) : option Analysis :=
  match klines with
  | None =>
      Some (mkAnalysis unknown (Fin 0) None None None None None None (Fin 50))
  | Some klines =>
      if (List.length klines <? 3)%nat then
        Some (mkAnalysis unknown (Fin 0) None None None None None None (Fin 50))
      else
        let recent := slice_last 10 klines in
        match nth_error recent (List.length recent - 1), nth_error recent 0 with
        | Some current, Some first =>
            let ma5 := Num.div (sum_by close (slice_last 5 recent)) (Fin 5) in
            let ma10 := Num.div (sum_by close recent) (Fin 10) in
            let priceChange :=
              Num.mul
                (Num.div (Num.sub (Fin (close current)) (Fin (close first)))
                         (Fin (close first)))
                (Fin 100) in
            let ts :=
              if Num.gt ma5 ma10 && Num.gt (Fin (close current)) ma5 then
                (bullish, Num.min (Num.abs priceChange) (Fin 100))
              else if Num.lt ma5 ma10 && Num.lt (Fin (close current)) ma5 then
                (bearish, Num.min (Num.abs priceChange) (Fin 100))
              else (sideways, Fin 0) in
            let avgVolume :=
              Num.div (sum_by volume (slice_but_last recent))
                      (Num.of_nat (List.length recent - 1)) in
            let volumeSpike :=
              Num.gt (Fin (volume current))
                     (Num.mul avgVolume (Fin (volume_spike_multiplier alerts))) in
            match calculateRSI (slice_last 15 klines) 14 with
            | None => None
            | Some rsi =>
                Some {| trend := fst ts;
                        strength := round_to 10 (snd ts);
                        ma5 := Some (round_to 100 ma5);
                        ma10 := Some (round_to 100 ma10);
                        priceChange := Some (round_to 100 priceChange);
                        volumeSpike := Some volumeSpike;
                        currentVolume := Some (Num.round (Fin (volume current)));
                        avgVolume := Some (Num.round avgVolume);
                        rsi := rsi |}
            end
        | _, _ => None
        end
  end.

(** *** The signal aggregator *)

(** The object built by [fetchBTCPrice]. *)
Record PriceData : Type := mkPriceData {
  price : Q;
  change24h : Q;
  volume24h : Q;
  high24h : Q;
  low24h : Q;
  trades : Z
}.

(** The strings that [generateMarketSignals] pushes.  Six are literals:
    "Multi-timeframe bullish signal", "Multi-timeframe bearish signal",
    "Mixed signals - suggest wait and see",
    "RSI overbought - possible correction ahead",
    "RSI oversold - possible bounce opportunity" and
    "Unusual volume detected - significant move possible" (each after its
    pictogram).  The seventh is the template
    "High volatility (<sign><change24h.toFixed(2)>%) - manage risk", a
    function of [change24h], which the constructor carries. *)
Inductive Signal : Type :=
| MultiTimeframeBullish
| MultiTimeframeBearish
| MixedSignals
| RsiOverbought
| RsiOversold
| HighVolatility (change24h : Q)
| UnusualVolume.

Definition Trend_eqb (a b : Trend) : bool :=
  match a, b with
  | bullish, bullish | bearish, bearish
  | sideways, sideways | unknown, unknown => true
  | _, _ => false
  end.

(** A JavaScript object with timeframe labels as keys: its properties in
    order. *)
Definition TimeframeAnalysis : Type := list (string * Analysis).

(** [Object.values(obj)] *)
Definition values (obj : TimeframeAnalysis) : list Analysis := List.map snd obj.

(** Truthiness of a property that holds a boolean or is absent. *)
Definition truthy (v : option bool) : bool :=
  match v with
  | Some b => b
  | None => false
  end.

(** [rsiValues.reduce((sum, r) => sum + r, 0) / rsiValues.length] *)
Definition avgRSI (klineAnalysis : TimeframeAnalysis) : num :=
  let rsiValues := List.map rsi (values klineAnalysis) in
  Num.div (fold_left (fun sum r => Num.add sum r) rsiValues (Fin 0))
          (Num.of_nat (List.length rsiValues)).

Definition count_trend (t : Trend) (klineAnalysis : TimeframeAnalysis) : nat :=
  let trends := List.map trend (values klineAnalysis) in
  List.length (List.filter (fun t' => Trend_eqb t' t) trends).

Definition generateMarketSignals (priceData : PriceData)
    (klineAnalysis : TimeframeAnalysis) : list Signal :=
  let signals := [] in
  let bullishCount := count_trend bullish klineAnalysis in
  let bearishCount := count_trend bearish klineAnalysis in
  let signals :=
    if (3 <=? bullishCount)%nat then signals ++ [MultiTimeframeBullish]
    else if (3 <=? bearishCount)%nat then signals ++ [MultiTimeframeBearish]
    else signals ++ [MixedSignals] in
  let avgRSI := avgRSI klineAnalysis in
  let signals :=
    if Num.gt avgRSI (Fin 70) then signals ++ [RsiOverbought]
    else if Num.lt avgRSI (Fin 30) then signals ++ [RsiOversold]
    else signals in
  let signals :=
    if Num.gt (Num.abs (Fin (change24h priceData))) (Fin 5)
    then signals ++ [HighVolatility (change24h priceData)]
    else signals in
  let hasVolumeSpike :=
    existsb (fun a => truthy (volumeSpike a)) (values klineAnalysis) in
  if hasVolumeSpike then signals ++ [UnusualVolume] else signals.

End BTCMonitor.

(** ** The meme token hunter *)

Module MemeTokenHunter.

(** *** Strings *)

Definition unit_in (lo hi : ascii) (c : ascii) : bool :=
  ((N_of_ascii lo <=? N_of_ascii c) && (N_of_ascii c <=? N_of_ascii hi))%N.

(** [toLowerCase] on one code unit below 256: the ASCII capitals and the
    Latin-1 capitals U+00C0..U+00DE (without the multiplication sign
    U+00D7) move up by 32. *)
Definition lower_unit (c : ascii) : ascii :=
  let n := N_of_ascii c in
  if ((65 <=? n) && (n <=? 90) || (192 <=? n) && (n <=? 222) && negb (n =? 215))%N
  then ascii_of_N (n + 32)
  else c.

Fixpoint toLowerCase (s : string) : string :=
  match s with
  | EmptyString => EmptyString
  | String c s' => String (lower_unit c) (toLowerCase s')
  end.

(** [s.startsWith(p)] and [s.includes(p)] *)
Definition startsWith (s p : string) : bool := String.prefix p s.

Fixpoint includes (s p : string) : bool :=
  if String.prefix p s then true
  else match s with
       | EmptyString => false
       | String _ s' => includes s' p
       end.

(** *** Regular expressions *)

(** [\w], [[a-fA-F0-9]] and [[1-9A-HJ-NP-Za-km-z]] *)
Definition is_word (c : ascii) : bool :=
  unit_in "a" "z" c || unit_in "A" "Z" c || unit_in "0" "9" c
  || Ascii.eqb c "_".

Definition is_hex (c : ascii) : bool :=
  unit_in "a" "f" c || unit_in "A" "F" c || unit_in "0" "9" c.

Definition is_base58 (c : ascii) : bool :=
  unit_in "1" "9" c || unit_in "A" "H" c || unit_in "J" "N" c
  || unit_in "P" "Z" c || unit_in "a" "k" c || unit_in "m" "z" c.

(** Whether the code unit at the head of [rest] is a word character; the
    end of the input is not. *)
Definition head_is_word (rest : string) : bool :=
  match rest with
  | String c _ => is_word c
  | EmptyString => false
  end.

(** [\b] at a position: [prev] tells whether the code unit before it is a
    word character, [rest] is the input from it on. *)
Definition word_boundary (prev : bool) (rest : string) : bool :=
  xorb prev (head_is_word rest).

(** [cls{n}]: consume exactly [n] code units of the class.  The result has
    the word-character flag of the last unit consumed and the input that
    is left. *)
Fixpoint consume_exact (cls : ascii -> bool) (n : nat) (prev : bool)
    (s : string) : option (bool * string) :=
  match n with
  | O => Some (prev, s)
  | S n' =>
      match s with
      | String c s' =>
          if cls c then consume_exact cls n' (is_word c) s' else None
      | EmptyString => None
      end
  end.

(** The number of leading code units of the class, [max] at most: what a
    greedy [cls{_,max}] takes first. *)
Fixpoint greedy (cls : ascii -> bool) (max : nat) (s : string) : nat :=
  match max with
  | O => O
  | S max' =>
      match s with
      | String c s' => if cls c then S (greedy cls max' s') else O
      | EmptyString => O
      end
  end.

Fixpoint drop_units (n : nat) (s : string) : string :=
  match n with
  | O => s
  | S n' =>
      match s with
      | String _ s' => drop_units n' s'
      | EmptyString => EmptyString
      end
  end.

(** [\b] after [k] code units of [s], [k] positive. *)
Definition boundary_after (s : string) (k : nat) : bool :=
  word_boundary
    (match String.get (k - 1) s with Some c => is_word c | None => false end)
    (drop_units k s).

(** Backtracking of the greedy quantifier: the repetition counts [k],
    [k - 1], ... are tried, [tries] of them, until [\b] holds after one. *)
Fixpoint backtrack (s : string) (k tries : nat) {struct tries} : option nat :=
  match tries with
  | O => None
  | S t =>
      if boundary_after s k then Some k
      else match k with
           | O => None
           | S k' => backtrack s k' t
           end
  end.

(** A pattern tried at one position: the length of its match there. *)
Definition matcher : Type := bool -> string -> option nat.

(** [/\b0x[a-fA-F0-9]{40}\b/] *)
Definition evm_pattern : matcher := fun prev s =>
  if word_boundary prev s then
    match s with
    | String c0 (String c1 s2) =>
        if Ascii.eqb c0 "0" && Ascii.eqb c1 "x" then
          match consume_exact is_hex 40 (is_word c1) s2 with
          | Some (p, rest) => if word_boundary p rest then Some 42%nat else None
          | None => None
          end
        else None
    | _ => None
    end
  else None.

(** [/\b[1-9A-HJ-NP-Za-km-z]{32,44}\b/] *)
Definition base58_pattern : matcher := fun prev s =>
  if word_boundary prev s then
    let g := greedy is_base58 44 s in
    if (32 <=? g)%nat then backtrack s g (g - 32 + 1) else None
  else None.

(** [text.match(pattern)] with the [g] flag, from a position on: [prev] is
    the word-character flag of the code unit before it and [skip] the
    number of code units still covered by the last match.  After a match
    the search resumes behind it (one unit on after an empty match).  The
    empty list stands for [null]. *)
Fixpoint match_from (pattern : matcher) (prev : bool) (skip : nat)
    (s : string) : list string :=
  match s with
  | EmptyString =>
      match skip, pattern prev s with
      | O, Some _ => [EmptyString]
      | _, _ => []
      end
  | String c s' =>
      match skip with
      | S k => match_from pattern (is_word c) k s'
      | O =>
          match pattern prev s with
          | Some n =>
              String.substring 0 n s :: match_from pattern (is_word c) (n - 1) s'
          | None => match_from pattern (is_word c) 0 s'
          end
      end
  end.

Definition match_all (pattern : matcher) (text : string) : list string :=
  match_from pattern false 0 text.

(** [matches.add(m)] on a [Set] kept in insertion order *)
Definition set_add (matches : list string) (m : string) : list string :=
  if existsb (String.eqb m) matches then matches else matches ++ [m].

Definition patterns : list matcher := [evm_pattern; base58_pattern].

Definition extractContractAddress (text : string) : list string :=
  fold_left
    (fun matches pattern => fold_left set_add (match_all pattern text) matches)
    patterns [].

(** *** Chain and risk heuristics *)

Inductive Chain : Type := SOL | BASE | BSC | ETH | UNKNOWN.

Definition detectChain (text ca : string) : Chain :=
  let lowerText := toLowerCase text in
  if includes lowerText "solana" || includes lowerText "sol"
     || (40 <? String.length ca)%nat then SOL
  else if includes lowerText "base" then BASE
  else if includes lowerText "bsc" || includes lowerText "binance smart chain"
  then BSC
  else if includes lowerText "ethereum" || includes lowerText "eth"
          || startsWith ca "0x" then ETH
  else UNKNOWN.

Inductive Risk : Type := CRITICAL | HIGH | MEDIUM | LOW.

Definition highRiskKeywords : list string :=
  ["rug pull"; "scam"; "honeypot"; "beware"; "warning"; "avoid"]%string.

Definition positiveKeywords : list string :=
  ["audit"; "safe"; "verified"; "legit"; "solid team"; "LP locked"]%string.

(** The value of [riskScore] after the two loops of [assessRisk]. *)
Definition riskScore (text : string) : Z :=
  let lowerText := toLowerCase text in
  let riskScore :=
    fold_left
      (fun score keyword =>
         if includes lowerText keyword then (score + 2)%Z else score)
      highRiskKeywords 0%Z in
  fold_left
    (fun score keyword =>
       if includes lowerText keyword then (score - 1)%Z else score)
    positiveKeywords riskScore.

Definition risk_level (riskScore : Z) : Risk :=
  if (4 <=? riskScore)%Z then CRITICAL
  else if (2 <=? riskScore)%Z then HIGH
  else if (0 <=? riskScore)%Z then MEDIUM
  else LOW.

Definition assessRisk (text : string) : Risk := risk_level (riskScore text).

(** *** Seen tokens *)

Record Config : Type := mkConfig {
  check_interval_minutes : Q;
  min_mentions_per_hour : Q;
  chains : list string;
  search_keywords : list string;
  influencer_accounts : list string;
  alert_cooldown_hours : Q
}.

Definition default_config : Config :=
  {| check_interval_minutes := 10;
     min_mentions_per_hour := 50;
     chains := ["SOL"; "ETH"; "BASE"; "BSC"]%string;
     search_keywords :=
       ["meme coin mooning right now CA"; "just launched contract address";
        "100x potential meme"]%string;
     influencer_accounts := ["@ansem"; "@blknoiz06"; "@Flowslikeosmo"]%string;
     alert_cooldown_hours := 24 |}.

Record Hunter : Type := mkHunter {
  config : Config;
  seenTokens : gmap string Z
}.

(** [now - timestamp > cooldownMs] *)
Definition expired (now : Z) (cooldownMs : Q) (timestamp : Z) : bool :=
  Num.gt (Fin (inject_Z (now - timestamp))) (Fin cooldownMs).

(** The clean-up loop: every entry of the map is visited once, and deleted
    when it has expired. *)
Definition clean_up (now : Z) (cooldownMs : Q) (seen : gmap string Z)
    : gmap string Z :=
  foldl
    (fun acc entry =>
       if expired now cooldownMs (snd entry) then delete (fst entry) acc else acc)
    seen (map_to_list seen).

(** [init()]: [configFile] and [seenFile] are the parsed contents of the
    two files, [None] when reading or parsing one throws; [now] is
    [Date.now()]. *)
Definition init (configFile : option Config)
    (seenFile : option (gmap string Z)) (now : Z) : Hunter :=
  let config :=
    match configFile with
    | Some c => c
    | None => default_config
    end in
  let seenTokens :=
    match seenFile with
    | Some parsed =>
        let cooldownMs := alert_cooldown_hours config * 60 * 60 * 1000 in
        clean_up now cooldownMs parsed
    | None => ∅
    end in
  {| config := config; seenTokens := seenTokens |}.

(** [saveSeenTokens()]: the object written to the seen-token file, the
    entries of the map. *)
Definition saveSeenTokens (hunter : Hunter) : gmap string Z := seenTokens hunter.

(** [markAsSeen(ca, chain)]: the hunter after the call and the contents of
    the file that the call writes; [now] is [Date.now()]. *)
Definition markAsSeen (hunter : Hunter) (ca chain : string) (now : Z)
    : Hunter * gmap string Z :=
  let key := (ca ++ "_" ++ chain)%string in
  let hunter' :=
    {| config := config hunter; seenTokens := <[key := now]> (seenTokens hunter) |} in
  (hunter', saveSeenTokens hunter').

End MemeTokenHunter.

(** * Vocabulary of the properties *)

Import BTCMonitor MemeTokenHunter.

(** ** Vocabulary of the indicator engine *)











(** Closing prices in which every price stands in relation [R] to the
    next one. *)
Fixpoint adjacent (R : Q -> Q -> Prop) (closes : list Q) : Prop :=
  match closes with
  | a :: (b :: _) as rest => R a b /\ adjacent R rest
  | _ => True
  end.

Definition strictly_increasing (closes : list Q) : Prop :=
  adjacent (fun a b => a < b) closes.

Definition strictly_decreasing (closes : list Q) : Prop :=
  adjacent (fun a b => b < a) closes.








(** ** Vocabulary of the signal aggregator *)

Definition Trend_eq_dec (a b : Trend) : {a = b} + {a <> b}.
Proof. decide equality. Defined.

(** The number of timeframes of a mapping with a given trend. *)
Definition timeframes_with (t : Trend) (klineAnalysis : TimeframeAnalysis) : nat :=
  count_occ Trend_eq_dec (List.map trend (values klineAnalysis)) t.

Definition is_consensus (s : Signal) : bool :=
  match s with
  | MultiTimeframeBullish | MultiTimeframeBearish | MixedSignals => true
  | _ => false
  end.

(** The output, rule by rule. *)
Definition consensus_signal (klineAnalysis : TimeframeAnalysis) : Signal :=
  if (3 <=? timeframes_with bullish klineAnalysis)%nat
  then MultiTimeframeBullish
  else if (3 <=? timeframes_with bearish klineAnalysis)%nat
       then MultiTimeframeBearish
       else MixedSignals.

Definition rsi_signals (klineAnalysis : TimeframeAnalysis) : list Signal :=
  if Num.gt (avgRSI klineAnalysis) (Fin 70) then [RsiOverbought]
  else if Num.lt (avgRSI klineAnalysis) (Fin 30) then [RsiOversold]
  else [].

Definition volatility_signals (priceData : PriceData) : list Signal :=
  if Num.gt (Num.abs (Fin (change24h priceData))) (Fin 5)
  then [HighVolatility (change24h priceData)]
  else [].

Definition volume_signals (klineAnalysis : TimeframeAnalysis) : list Signal :=
  if existsb (fun a => truthy (volumeSpike a)) (values klineAnalysis)
  then [UnusualVolume]
  else [].



(** The place of a signal in the output: consensus, RSI, volatility,
    volume. *)
Definition rank (s : Signal) : nat :=
  match s with
  | MultiTimeframeBullish | MultiTimeframeBearish | MixedSignals => 0
  | RsiOverbought | RsiOversold => 1
  | HighVolatility _ => 2
  | UnusualVolume => 3
  end.





(** ** Vocabulary of the token hunter *)


Definition clean_step (now : Z) (cooldownMs : Q) (acc : gmap string Z)
    (entry : string * Z) : gmap string Z :=
  if expired now cooldownMs (snd entry) then delete (fst entry) acc else acc.

Section Strings.
Local Open Scope string_scope.

Definition delimited_left (pre : string) : Prop :=
  pre = "" \/ exists p c, pre = p ++ String c "" /\ is_word c = false.

Definition delimited_right (post : string) : Prop := head_is_word post = false.

(** A pattern that starts and ends on a word character and matches word
    characters only. *)
Record word_pattern (p : matcher) : Prop := {
  anchored : forall prev s n,
    p prev s = Some n -> prev = false /\ head_is_word s = true;
  local : forall prev a c b,
    is_word c = false ->
    p prev (a ++ String c b) = p prev (a ++ String c "")
    /\ forall n, p prev (a ++ String c "") = Some n -> (n <= String.length a)%nat
}.

Fixpoint all_in (cls : ascii -> bool) (w : string) : bool :=
  match w with
  | EmptyString => true
  | String c w' => cls c && all_in cls w'
  end.

Fixpoint last_flag (prev : bool) (w : string) : bool :=
  match w with
  | EmptyString => prev
  | String c w' => last_flag (is_word c) w'
  end.

(** The two shapes of an address: 0x and 40 hexadecimal digits, or 32 to
    44 base58 digits. *)
Definition evm_shape (m : string) : Prop :=
  exists d, m = String "0" (String "x" d)
            /\ String.length d = 40%nat /\ all_in is_hex d = true.

Definition base58_shape (m : string) : Prop :=
  (32 <= String.length m <= 44)%nat /\ all_in is_base58 m = true.

Definition address_shape (m : string) : Prop := evm_shape m \/ base58_shape m.

(** [m] occurs in [text] with no word character directly before or
    after. *)
Definition occurs_delimited (m text : string) : Prop :=
  exists pre post,
    text = pre ++ m ++ post /\ delimited_left pre /\ delimited_right post.

(** What a pattern matches: the strings of [shape], between a position that
    no word character precedes and one that none follows. *)
Record matches_shape (p : matcher) (shape : string -> Prop) : Prop := {
  shape_nonempty : forall m, shape m -> m <> "";
  hit_sound : forall prev s n,
    p prev s = Some n ->
    exists m b, s = m ++ b /\ String.length m = n /\ shape m
                /\ head_is_word b = false;
  hit_complete : forall m b,
    shape m -> head_is_word b = false -> p false (m ++ b) = Some (String.length m)
}.

(** The number of keywords of a list that occur in a text. *)
Definition occurring (lowerText : string) (keywords : list string) : nat :=
  List.length (List.filter (includes lowerText) keywords).

(** The positive keywords without capitals. *)
Definition effective_positive : list string :=
  ["audit"; "safe"; "verified"; "legit"; "solid team"].

Definition not_underscore (c : ascii) : bool := negb (Ascii.eqb c "_").

Definition sample_address : string :=
  "0xABCDEF0123456789ABCDEF0123456789ABCDEF01".

Definition sample_digits : string := "ABCDEF0123456789ABCDEF0123456789ABCDEF01".

Definition sample_text : string :=
  "CA: 0xABCDEF0123456789ABCDEF0123456789ABCDEF01".

End Strings.

(** ** Sample inputs *)

Definition candle_at (c : Q) : Candle := mkCandle 0 c c c c 1.

Definition rising : list Candle :=
  List.map candle_at [1; 2; 3; 4; 5; 6; 7; 8; 9; 10; 11; 12; 13; 14; 15; 16].

Definition falling : list Candle :=
  List.map candle_at [16; 15; 14; 13; 12; 11; 10; 9; 8; 7; 6; 5; 4; 3; 2; 1].

Definition closes_10 : list Candle :=
  List.map candle_at [1; 1; 1; 1; 1; 1; 1; 1; 1; 1001 # 1000].




Definition flat_analysis (t : Trend) (r : Q) : Analysis :=
  {| trend := t; strength := Fin 0; ma5 := Some (Fin 1); ma10 := Some (Fin 1);
     priceChange := Some (Fin 0); volumeSpike := Some false;
     currentVolume := Some (Fin 1); avgVolume := Some (Fin 1); rsi := Fin r |}.

Definition sample_price : PriceData :=
  {| price := 43000; change24h := 1; volume24h := 1000; high24h := 44000;
     low24h := 42000; trades := 5%Z |}.

Definition sample_analysis : TimeframeAnalysis :=
  [("5m"%string, flat_analysis bullish 80);
   ("15m"%string, flat_analysis bullish 70);
   ("1h"%string, flat_analysis bullish 75);
   ("4h"%string, flat_analysis sideways 75)].

Definition calm_analysis : TimeframeAnalysis :=
  [("5m"%string, flat_analysis sideways 40);
   ("15m"%string, flat_analysis sideways 60)].

Definition sample_seen : gmap string Z :=
  <[ "old_SOL"%string := 10000000%Z ]>
    (<[ "new_ETH"%string := 17200000%Z ]> ∅).

(** * Properties *)

(** ** Comparison and arithmetic of numbers *)

Lemma gt_Fin (a b : Q) : Num.gt (Fin a) (Fin b) = true <-> b < a.
Proof.
  simpl. rewrite (Qgt_alt a b).
  destruct (a ?= b); split; congruence.
Qed.



Lemma div_Fin (x y : Q) : ~ y == 0 -> Num.div (Fin x) (Fin y) = Fin (x / y).
Proof.
  intros Hy. simpl. destruct (Qeq_bool y 0) eqn:E; [|reflexivity].
  apply Qeq_bool_iff in E. contradiction.
Qed.

Lemma strict_eq_Fin_false (x y : Q) : ~ x == y -> Num.strict_eq (Fin x) (Fin y) = false.
Proof.
  intros H. simpl. apply not_true_iff_false. intros E.
  apply Qeq_bool_iff in E. contradiction.
Qed.

Lemma gt_Fin_zero_sub (a b : Q) :
  Num.gt (Num.sub (Fin a) (Fin b)) (Fin 0) = true <-> b < a.
Proof. simpl. rewrite (gt_Fin (a + - b) 0). split; intros; lra. Qed.

(** ** Numbers up to equality of rationals *)

#[global] Instance same_equiv : Equivalence Num.same.
Proof.
  split.
  - intros []; simpl; auto with qarith.
  - intros [] []; simpl; auto with qarith.
  - intros [] [] []; simpl; try tauto. apply Qeq_trans.
Qed.



#[global] Instance add_same : Proper (Num.same ==> Num.same ==> Num.same) Num.add.
Proof.
  intros [] [] H1 [] [] H2; simpl in *; try tauto. rewrite H1, H2. reflexivity.
Qed.


#[global] Instance gt_same : Proper (Num.same ==> Num.same ==> eq) Num.gt.
Proof.
  intros [] [] H1 [] [] H2; simpl in *; try tauto. rewrite H1, H2. reflexivity.
Qed.




(** ** The relative strength index *)

(** Read a candle of an array at an index that is in range. *)
Tactic Notation "read_candle" constr(klines) constr(i)
    "as" ident(k) "eqn" ":" ident(E) :=
  destruct (nth_error klines i) as [k|] eqn:E;
  [|apply nth_error_None in E; lia].

Lemma slice_last_length {A : Type} (n : nat) (arr : list A) :
  List.length (slice_last n arr) = Nat.min n (List.length arr).
Proof. unfold slice_last. rewrite List.length_skipn. lia. Qed.

Section Adjacent.
Variable R : Q -> Q -> Prop.

Lemma adjacent_tail (a : Q) (l : list Q) :
  adjacent R (a :: l) -> adjacent R l.
Proof. destruct l; simpl; tauto. Qed.

Lemma adjacent_skipn (n : nat) (l : list Q) :
  adjacent R l -> adjacent R (skipn n l).
Proof.
  revert l. induction n as [|n IH]; intros l H; [exact H|].
  destruct l as [|a l]; [exact H|]. simpl. apply IH. eapply adjacent_tail, H.
Qed.

Lemma adjacent_nth (klines : list Candle) (i : nat) (kp ki : Candle) :
  adjacent R (List.map close klines) ->
  nth_error klines i = Some kp -> nth_error klines (S i) = Some ki ->
  R (close kp) (close ki).
Proof.
  revert i. induction klines as [|k klines IH]; intros i Hadj Hp Hi.
  - destruct i; discriminate.
  - destruct i as [|i].
    + destruct klines as [|k' klines]; [discriminate|].
      simpl in *. injection Hp as <-. injection Hi as <-. tauto.
    + simpl in Hp, Hi. apply (IH i); [|exact Hp|exact Hi].
      eapply adjacent_tail, Hadj.
Qed.

Lemma slice_last_adjacent (n : nat) (klines : list Candle) :
  adjacent R (List.map close klines) ->
  adjacent R (List.map close (slice_last n klines)).
Proof.
  intros H. unfold slice_last.
  rewrite <- List.skipn_map. apply adjacent_skipn, H.
Qed.

End Adjacent.

Section RSI.


(** Rising prices: no loss is ever added. *)
Lemma rsi_loop_increasing (klines : list Candle) (n s : nat) (g : num) :
  strictly_increasing (List.map close klines) ->
  (s + n < List.length klines)%nat ->
  exists g', rsi_loop klines (List.seq (S s) n) (g, Fin 0) = Some (g', Fin 0).
Proof.
  intros Hinc. revert s g. induction n as [|n IH]; intros s g Hlen.
  - exists g. reflexivity.
  - read_candle klines (S s) as ki eqn:Eki. read_candle klines s as kp eqn:Ekp.
    cbn [rsi_loop List.seq]. rewrite Eki. replace (S s - 1)%nat with s by lia.
    rewrite Ekp. cbv zeta.
    pose proof (adjacent_nth _ klines s kp ki Hinc Ekp Eki) as Hlt. simpl in Hlt.
    apply gt_Fin_zero_sub in Hlt. rewrite Hlt. simpl fst. simpl snd.
    apply IH. lia.
Qed.

(** Falling prices: no gain is ever added, and the losses grow. *)
Lemma rsi_loop_decreasing (klines : list Candle) (n s : nat) (l : Q) :
  strictly_decreasing (List.map close klines) ->
  (s + n < List.length klines)%nat ->
  exists l',
    rsi_loop klines (List.seq (S s) n) (Fin 0, Fin l) = Some (Fin 0, Fin l')
    /\ l <= l' /\ ((0 < n)%nat -> l < l').
Proof.
  intros Hdec. revert s l. induction n as [|n IH]; intros s l Hlen.
  - exists l. simpl. repeat split; [lra | lia].
  - read_candle klines (S s) as ki eqn:Eki. read_candle klines s as kp eqn:Ekp.
    cbn [rsi_loop List.seq]. rewrite Eki. replace (S s - 1)%nat with s by lia.
    rewrite Ekp. cbv zeta.
    pose proof (adjacent_nth _ klines s kp ki Hdec Ekp Eki) as Hlt. simpl in Hlt.
    destruct (Num.gt _ (Fin 0)) eqn:Egt; [apply gt_Fin_zero_sub in Egt; lra|].
    unfold Num.sub. cbn [fst snd Num.add Num.neg Num.abs].
    destruct (IH (S s) (l + Qabs (close ki + - close kp))) as (l' & Hl' & Hle & _);
      [lia|].
    exists l'. split; [exact Hl'|].
    assert (Habs : Qabs (close ki + - close kp) == - (close ki + - close kp))
      by (apply Qabs_neg; lra).
    split; [|intros _]; lra.
Qed.

(** C4.  Over the most recent 15 candles of a sequence of at least 15,
    [calculateRSI] gives 100 for strictly increasing closing prices and 0
    for strictly decreasing ones; for fewer than 15 candles it gives the
    neutral 50. *)
Theorem calculateRSI_monotone (klines : list Candle) :
  ((15 <= List.length klines)%nat ->
   strictly_increasing (List.map close klines) ->
   calculateRSI (slice_last 15 klines) 14 = Some (Fin 100))
  /\ ((15 <= List.length klines)%nat ->
      strictly_decreasing (List.map close klines) ->
      exists v, calculateRSI (slice_last 15 klines) 14 = Some v /\ v =n= Fin 0)
  /\ ((List.length klines < 15)%nat -> calculateRSI klines 14 = Some (Fin 50)).
Proof.
  split; [|split].
  - intros Hlen Hinc.
    pose proof (slice_last_length 15 klines) as Hw.
    apply (slice_last_adjacent _ 15) in Hinc.
    destruct (rsi_loop_increasing (slice_last 15 klines) 14 0 (Fin 0) Hinc)
      as [g' Hloop]; [lia|].
    unfold calculateRSI. rewrite Hw.
    replace (Nat.min 15 (List.length klines)) with 15%nat by lia.
    change (15 <? 14 + 1)%nat with false. cbv iota. rewrite Hloop. reflexivity.
  - intros Hlen Hdec.
    pose proof (slice_last_length 15 klines) as Hw.
    apply (slice_last_adjacent _ 15) in Hdec.
    destruct (rsi_loop_decreasing (slice_last 15 klines) 14 0 0 Hdec)
      as (l' & Hloop & _ & Hpos); [lia|].
    specialize (Hpos ltac:(lia)).
    unfold calculateRSI. rewrite Hw.
    replace (Nat.min 15 (List.length klines)) with 15%nat by lia.
    change (15 <? 14 + 1)%nat with false. cbv iota. rewrite Hloop. cbv zeta.
    change (Num.of_nat 14) with (Fin 14).
    rewrite !(div_Fin _ 14) by discriminate.
    assert (Hl14 : ~ l' / 14 == 0).
    { intros E. assert (l' == (l' / 14) * 14) by (field; discriminate). lra. }
    rewrite (strict_eq_Fin_false _ 0 Hl14), (div_Fin _ _ Hl14).
    assert (Hrs : 0 / 14 / (l' / 14) == 0) by (field; lra).
    cbn [Num.add].
    assert (Hone : ~ 1 + 0 / 14 / (l' / 14) == 0) by (rewrite Hrs; discriminate).
    rewrite (div_Fin _ _ Hone). unfold Num.sub.
    cbn [Num.add Num.neg Num.mul Num.round].
    rewrite (div_Fin _ 10) by discriminate.
    eexists. split; [reflexivity|]. unfold Num.same.
    assert (Hfloor :
      Qfloor ((100 + - (100 / (1 + 0 / 14 / (l' / 14)))) * 10 + (1 # 2)) = 0%Z)
      by (rewrite Hrs; reflexivity).
    rewrite Hfloor. reflexivity.
  - intros Hlen. unfold calculateRSI.
    apply Nat.ltb_lt in Hlen. replace (14 + 1)%nat with 15%nat by lia.
    rewrite Hlen. reflexivity.
Qed.

Lemma calculateRSI_monotone_witness :
  calculateRSI (slice_last 15 rising) 14 = Some (Fin 100)
  /\ (exists v, calculateRSI (slice_last 15 falling) 14 = Some v /\ v =n= Fin 0)
  /\ calculateRSI (List.map candle_at [1; 2; 3]) 14 = Some (Fin 50).
Proof.
  split; [|split].
  - apply (calculateRSI_monotone rising); [simpl; lia|].
    unfold strictly_increasing. simpl. repeat split.
  - apply (calculateRSI_monotone falling); [simpl; lia|].
    unfold strictly_decreasing. simpl. repeat split.
  - apply (calculateRSI_monotone (List.map candle_at [1; 2; 3])). simpl. lia.
Defined.

End RSI.

(** ** The indicator engine *)

Section Sums.
Context {A : Type} (f : A -> Q).




End Sums.

Section Indicators.







End Indicators.

Section Engine.









End Engine.

(** ** The signal aggregator *)

(** The case analysis on the six tests of [generateMarketSignals]. *)
Ltac rule_cases priceData klineAnalysis :=
  destruct (3 <=? timeframes_with bullish klineAnalysis)%nat,
    (3 <=? timeframes_with bearish klineAnalysis)%nat,
    (Num.gt (avgRSI klineAnalysis) (Fin 70)),
    (Num.lt (avgRSI klineAnalysis) (Fin 30)),
    (Num.gt (Num.abs (Fin (change24h priceData))) (Fin 5)),
    (existsb (fun a => truthy (volumeSpike a)) (values klineAnalysis)).

Section Aggregator.

Lemma count_trend_spec (t : Trend) (klineAnalysis : TimeframeAnalysis) :
  count_trend t klineAnalysis = timeframes_with t klineAnalysis.
Proof.
  unfold count_trend, timeframes_with.
  induction (List.map trend (values klineAnalysis)) as [|t' l IH]; [reflexivity|].
  simpl. destruct (Trend_eq_dec t' t) as [->|Hne].
  - destruct t; simpl; f_equal; exact IH.
  - destruct t', t; simpl; try exact IH; congruence.
Qed.

Lemma generateMarketSignals_rules (priceData : PriceData)
    (klineAnalysis : TimeframeAnalysis) :
  generateMarketSignals priceData klineAnalysis =
  consensus_signal klineAnalysis :: rsi_signals klineAnalysis
    ++ volatility_signals priceData ++ volume_signals klineAnalysis.
Proof.
  unfold generateMarketSignals, consensus_signal, rsi_signals,
    volatility_signals, volume_signals.
  rewrite !count_trend_spec.
  rule_cases priceData klineAnalysis; reflexivity.
Qed.

(** C5.  For a nonempty mapping exactly one consensus signal is emitted:
    the bullish one if at least 3 timeframes are bullish, otherwise the
    bearish one if at least 3 are bearish, otherwise the mixed one; the
    output has between 1 and 4 signals and depends on the inputs only. *)
Theorem generateMarketSignals_consensus (priceData : PriceData)
    (klineAnalysis : TimeframeAnalysis) :
  klineAnalysis <> [] ->
  let signals := generateMarketSignals priceData klineAnalysis in
  List.filter is_consensus signals =
    [ if (3 <=? timeframes_with bullish klineAnalysis)%nat
      then MultiTimeframeBullish
      else if (3 <=? timeframes_with bearish klineAnalysis)%nat
           then MultiTimeframeBearish
           else MixedSignals ]
  /\ (1 <= List.length signals <= 4)%nat
  /\ (forall priceData' klineAnalysis',
        priceData' = priceData -> klineAnalysis' = klineAnalysis ->
        generateMarketSignals priceData' klineAnalysis' = signals).
Proof.
  intros _ signals. subst signals. rewrite generateMarketSignals_rules.
  fold (consensus_signal klineAnalysis).
  unfold rsi_signals, volatility_signals, volume_signals.
  split; [|split].
  - assert (Hc : is_consensus (consensus_signal klineAnalysis) = true).
    { unfold consensus_signal.
      destruct (3 <=? _)%nat; [reflexivity|]. destruct (3 <=? _)%nat; reflexivity. }
    destruct (Num.gt (avgRSI klineAnalysis) (Fin 70)),
      (Num.lt (avgRSI klineAnalysis) (Fin 30)),
      (Num.gt (Num.abs (Fin (change24h priceData))) (Fin 5)),
      (existsb (fun a => truthy (volumeSpike a)) (values klineAnalysis));
      simpl; rewrite Hc; reflexivity.
  - destruct (Num.gt (avgRSI klineAnalysis) (Fin 70)),
      (Num.lt (avgRSI klineAnalysis) (Fin 30)),
      (Num.gt (Num.abs (Fin (change24h priceData))) (Fin 5)),
      (existsb (fun a => truthy (volumeSpike a)) (values klineAnalysis));
      simpl; lia.
  - intros ? ? -> ->. apply generateMarketSignals_rules.
Qed.

Lemma generateMarketSignals_consensus_witness :
  List.filter is_consensus (generateMarketSignals sample_price sample_analysis)
  = [MultiTimeframeBullish].
Proof.
  apply (generateMarketSignals_consensus sample_price sample_analysis).
  discriminate.
Defined.

Lemma In_generateMarketSignals_volume (priceData : PriceData)
    (klineAnalysis : TimeframeAnalysis) :
  In UnusualVolume (generateMarketSignals priceData klineAnalysis)
  <-> existsb (fun a => truthy (volumeSpike a)) (values klineAnalysis) = true.
Proof.
  rewrite generateMarketSignals_rules.
  unfold consensus_signal, rsi_signals, volatility_signals, volume_signals.
  rule_cases priceData klineAnalysis; simpl; intuition congruence.
Qed.

(** C10.  For fewer than 3 candles the object returned by [analyzeKline]
    has the fields trend, strength and rsi only; its absent volumeSpike
    counts as false in [generateMarketSignals], so that adding such a
    timeframe to a mapping does not change whether the volume signal is
    emitted. *)
Theorem analyzeKline_short_fields (alerts : PriceAlerts) (klines : list Candle) :
  (List.length klines < 3)%nat ->
  exists r,
    analyzeKline alerts (Some klines) = Some r
    /\ trend r = unknown /\ strength r = Fin 0 /\ rsi r = Fin 50
    /\ ma5 r = None /\ ma10 r = None /\ priceChange r = None
    /\ volumeSpike r = None /\ currentVolume r = None /\ avgVolume r = None
    /\ forall priceData before label after,
         In UnusualVolume
            (generateMarketSignals priceData (before ++ (label, r) :: after))
         <-> In UnusualVolume (generateMarketSignals priceData (before ++ after)).
Proof.
  intros Hlen. unfold analyzeKline.
  apply Nat.ltb_lt in Hlen. rewrite Hlen.
  eexists. split; [reflexivity|]. simpl.
  repeat (split; [reflexivity|]).
  intros priceData before label after.
  rewrite !In_generateMarketSignals_volume. unfold values.
  rewrite !List.map_app, !existsb_app. simpl. reflexivity.
Qed.

Lemma analyzeKline_short_fields_witness :
  exists r,
    analyzeKline default_price_alerts (Some [mkCandle 0 1 2 1 2 10]) = Some r
    /\ volumeSpike r = None
    /\ ~ In UnusualVolume
         (generateMarketSignals sample_price
            (sample_analysis ++ [("1d"%string, r)])).
Proof.
  destruct (analyzeKline_short_fields default_price_alerts [mkCandle 0 1 2 1 2 10])
    as (r & Hr & _ & _ & _ & _ & _ & _ & Hv & _ & _ & Hsig); [simpl; lia|].
  exists r. split; [exact Hr|]. split; [exact Hv|].
  rewrite (Hsig sample_price sample_analysis "1d"%string []).
  vm_compute. intuition discriminate.
Defined.

End Aggregator.

(** ** RSI signals of the aggregator *)

Section AggregatorRSI.







End AggregatorRSI.

(** ** Risk assessment *)

Section Risk.
Local Open Scope string_scope.

Lemma lower_unit_not_capital (c : ascii) : unit_in "A" "Z" (lower_unit c) = false.
Proof. destruct c as [[] [] [] [] [] [] [] []]; reflexivity. Qed.

(** A pattern that starts with an ASCII capital occurs in no lowercased
    text. *)
Lemma includes_lower_capital (text : string) (c : ascii) (p : string) :
  unit_in "A" "Z" c = true -> includes (toLowerCase text) (String c p) = false.
Proof.
  intros Hc. induction text as [|d text IH]; simpl; [reflexivity|].
  destruct (Ascii.ascii_dec c (lower_unit d)) as [->|Hne].
  - rewrite lower_unit_not_capital in Hc. discriminate.
  - apply IH.
Qed.

(** C7.  [assessRisk] maps the risk score to a level by score >= 4 ->
    CRITICAL, score >= 2 -> HIGH, score >= 0 -> MEDIUM, otherwise LOW; the
    text "warning: possible rug pull, unaudited" is HIGH or CRITICAL, and
    the text "audited, LP locked, solid team" is LOW. *)
Theorem assessRisk_levels :
  (forall text,
     let score := riskScore text in
     ((4 <= score)%Z -> assessRisk text = CRITICAL) /\
     ((2 <= score < 4)%Z -> assessRisk text = HIGH) /\
     ((0 <= score < 2)%Z -> assessRisk text = MEDIUM) /\
     ((score < 0)%Z -> assessRisk text = LOW)) /\
  (assessRisk "warning: possible rug pull, unaudited" = HIGH \/
   assessRisk "warning: possible rug pull, unaudited" = CRITICAL) /\
  assessRisk "audited, LP locked, solid team" = LOW.
Proof.
  split; [|split; [left|]; reflexivity].
  intros text score. unfold assessRisk, risk_level. fold score.
  repeat split; intros H;
    repeat match goal with
    | |- context [Z.leb ?a ?b] => destruct (Z.leb_spec a b); try lia
    end; reflexivity.
Qed.

Lemma assessRisk_levels_witness :
  assessRisk "scam, honeypot: avoid" = CRITICAL
  /\ assessRisk "verified and safe" = LOW.
Proof.
  destruct assessRisk_levels as [Hlevels _]. split.
  - apply (Hlevels "scam, honeypot: avoid"). vm_compute. discriminate.
  - apply (Hlevels "verified and safe"). reflexivity.
Defined.

(** C8 (the code departs from the claim).  On the text "LP locked" the
    score is 0 and the level MEDIUM: the keyword "LP locked" is searched,
    capitals and all, in the lowercased text, where it cannot occur, so it
    never lowers the score of any text. *)
Theorem assessRisk_LP_locked :
  riskScore "LP locked" = 0%Z /\
  assessRisk "LP locked" = MEDIUM /\
  forall text, includes (toLowerCase text) "LP locked" = false.
Proof.
  split; [reflexivity|split; [reflexivity|]].
  intros text. apply includes_lower_capital. reflexivity.
Qed.

End Risk.

(** ** Extraction of a delimited address *)

Lemma append_cons (d : ascii) (a b : string) : (String d a ++ b = String d (a ++ b))%string.
Proof. reflexivity. Qed.

Lemma append_nil (a : string) : ("" ++ a = a)%string.
Proof. reflexivity. Qed.

Ltac norm_append := rewrite ?append_cons, ?append_nil.

Lemma append_assoc (a b c : string) : ((a ++ b) ++ c = a ++ (b ++ c))%string.
Proof.
  induction a as [|d a IH]; [reflexivity|].
  rewrite !append_cons, IH. reflexivity.
Qed.

Section Extraction.
Local Open Scope string_scope.

Lemma hex_is_word (c : ascii) : is_hex c = true -> is_word c = true.
Proof. destruct c as [[] [] [] [] [] [] [] []]; vm_compute; intros H; congruence. Qed.

Lemma base58_is_word (c : ascii) : is_base58 c = true -> is_word c = true.
Proof. destruct c as [[] [] [] [] [] [] [] []]; vm_compute; intros H; congruence. Qed.

Lemma head_is_word_local (a : string) (c : ascii) (b : string) :
  head_is_word (a ++ String c b) = head_is_word (a ++ String c "").
Proof. destruct a; reflexivity. Qed.

Lemma word_boundary_local (prev : bool) (a : string) (c : ascii) (b : string) :
  word_boundary prev (a ++ String c b) = word_boundary prev (a ++ String c "").
Proof. unfold word_boundary. rewrite head_is_word_local. reflexivity. Qed.

Section Classes.
Variable cls : ascii -> bool.
Variable c : ascii.
Variable b : string.
Hypothesis cls_word : forall d, cls d = true -> is_word d = true.
Hypothesis c_not_word : is_word c = false.

Lemma cls_c : cls c = false.
Proof.
  destruct (cls c) eqn:E; [|reflexivity].
  apply cls_word in E. congruence.
Qed.

(** The outcome of [cls{n}\b] does not depend on what follows [c]. *)
Lemma consume_exact_local (n : nat) (prev : bool) (a : string) :
  match consume_exact cls n prev (a ++ String c b) with
  | Some (p, rest) => Some (word_boundary p rest)
  | None => None
  end
  = match consume_exact cls n prev (a ++ String c "") with
    | Some (p, rest) => Some (word_boundary p rest)
    | None => None
    end.
Proof.
  revert prev a. induction n as [|n IH]; intros prev a.
  - simpl. unfold word_boundary. rewrite head_is_word_local. reflexivity.
  - destruct a as [|d a]; simpl.
    + rewrite cls_c. reflexivity.
    + destruct (cls d); [apply IH | reflexivity].
Qed.

Lemma consume_exact_length (n : nat) (prev : bool) (a : string) (r : bool * string) :
  consume_exact cls n prev (a ++ String c "") = Some r -> (n <= String.length a)%nat.
Proof.
  revert prev a. induction n as [|n IH]; intros prev a H; [lia|].
  destruct a as [|d a]; simpl in H.
  - rewrite cls_c in H. discriminate.
  - destruct (cls d); [|discriminate]. apply IH in H. simpl. lia.
Qed.

Lemma greedy_local (max : nat) (a : string) :
  greedy cls max (a ++ String c b) = greedy cls max (a ++ String c "")
  /\ (greedy cls max (a ++ String c "") <= String.length a)%nat.
Proof.
  revert a. induction max as [|max IH]; intros a; [simpl; split; [reflexivity|lia]|].
  destruct a as [|d a]; simpl.
  - rewrite cls_c. split; [reflexivity|lia].
  - destruct (cls d); [|split; [reflexivity|lia]].
    destruct (IH a) as [-> Hle]. split; [reflexivity|lia].
Qed.

Lemma get_local (i : nat) (a : string) :
  (i <= String.length a)%nat ->
  String.get i (a ++ String c b) = String.get i (a ++ String c "").
Proof.
  revert i. induction a as [|d a IH]; intros i Hi; simpl in *.
  - destruct i; [reflexivity|lia].
  - destruct i; [reflexivity|]. apply IH. lia.
Qed.

Lemma head_drop_local (k : nat) (a : string) :
  (k <= String.length a)%nat ->
  head_is_word (drop_units k (a ++ String c b))
  = head_is_word (drop_units k (a ++ String c "")).
Proof.
  revert a. induction k as [|k IH]; intros a Hk.
  - apply head_is_word_local.
  - destruct a as [|d a]; simpl in *; [lia|]. apply IH. lia.
Qed.

Lemma boundary_after_local (k : nat) (a : string) :
  (k <= String.length a)%nat ->
  boundary_after (a ++ String c b) k = boundary_after (a ++ String c "") k.
Proof.
  intros Hk. unfold boundary_after, word_boundary.
  rewrite head_drop_local by exact Hk. rewrite get_local by lia. reflexivity.
Qed.

Lemma backtrack_local (tries k : nat) (a : string) :
  (k <= String.length a)%nat ->
  backtrack (a ++ String c b) k tries = backtrack (a ++ String c "") k tries.
Proof.
  revert k. induction tries as [|t IH]; intros k Hk; [reflexivity|].
  simpl. rewrite boundary_after_local by exact Hk.
  destruct (boundary_after _ k); [reflexivity|].
  destruct k as [|k]; [reflexivity|]. apply IH. lia.
Qed.

End Classes.

Lemma backtrack_le (s : string) (tries k n : nat) :
  backtrack s k tries = Some n -> (n <= k)%nat.
Proof.
  revert k. induction tries as [|t IH]; intros k H; [discriminate|].
  simpl in H. destruct (boundary_after s k).
  - injection H as <-. lia.
  - destruct k as [|k]; [discriminate|]. apply IH in H. lia.
Qed.

Lemma word_boundary_start (prev : bool) (s : string) :
  word_boundary prev s = true -> head_is_word s = true ->
  prev = false /\ head_is_word s = true.
Proof.
  unfold word_boundary. intros Hb Hw. rewrite Hw in Hb.
  destruct prev; [discriminate|]. auto.
Qed.

Lemma evm_pattern_word : word_pattern evm_pattern.
Proof.
  split.
  - intros prev s n H. unfold evm_pattern in H.
    destruct (word_boundary prev s) eqn:Hb; [|discriminate].
    apply (word_boundary_start prev s Hb).
    destruct s as [|c0 [|c1 s2]]; try discriminate.
    destruct (Ascii.eqb_spec c0 "0") as [->|]; [reflexivity|discriminate].
  - intros prev a c b Hc.
    assert (Hcls := cls_c is_hex c hex_is_word Hc).
    assert (Hc0 : Ascii.eqb c "0" = false).
    { destruct (Ascii.eqb_spec c "0") as [->|]; [discriminate|reflexivity]. }
    assert (Hcx : Ascii.eqb c "x" = false).
    { destruct (Ascii.eqb_spec c "x") as [->|]; [discriminate|reflexivity]. }
    unfold evm_pattern. rewrite word_boundary_local.
    destruct (word_boundary prev (a ++ String c ""));
      [|split; [reflexivity|discriminate]].
    destruct a as [|c0 [|c1 a]]; norm_append.
    + rewrite Hc0. split; [|discriminate]. destruct b; reflexivity.
    + rewrite Hcx, andb_false_r. split; [reflexivity|discriminate].
    + destruct (Ascii.eqb c0 "0" && Ascii.eqb c1 "x");
        [|split; [reflexivity|discriminate]].
      pose proof (consume_exact_local is_hex c b hex_is_word Hc 40 (is_word c1) a)
        as Hloc.
      pose proof (consume_exact_length is_hex c hex_is_word Hc 40 (is_word c1) a)
        as Hlen.
      destruct (consume_exact is_hex 40 (is_word c1) (a ++ String c b))
        as [[p rest]|];
        destruct (consume_exact is_hex 40 (is_word c1) (a ++ String c ""))
        as [[p' rest']|]; try discriminate.
      * injection Hloc as ->. split; [reflexivity|].
        intros n Hn. specialize (Hlen _ eq_refl).
        destruct (word_boundary p' rest'); [|discriminate].
        injection Hn as <-. simpl. lia.
      * split; [reflexivity|discriminate].
Qed.

Lemma base58_pattern_word : word_pattern base58_pattern.
Proof.
  split.
  - intros prev s n H. unfold base58_pattern in H.
    destruct (word_boundary prev s) eqn:Hb; [|discriminate].
    apply (word_boundary_start prev s Hb).
    destruct (32 <=? greedy is_base58 44 s)%nat eqn:Hg; [|discriminate].
    apply Nat.leb_le in Hg.
    destruct s as [|c s]; simpl in Hg; [lia|].
    simpl. destruct (is_base58 c) eqn:Ec; [|lia].
    apply base58_is_word, Ec.
  - intros prev a c b Hc. unfold base58_pattern.
    rewrite word_boundary_local.
    destruct (word_boundary prev (a ++ String c ""));
      [|split; [reflexivity|discriminate]].
    destruct (greedy_local is_base58 c b base58_is_word Hc 44 a) as [-> Hle].
    destruct (32 <=? _)%nat; [|split; [reflexivity|discriminate]].
    rewrite backtrack_local by exact Hle.
    split; [reflexivity|].
    intros n Hn. apply backtrack_le in Hn. lia.
Qed.

End Extraction.

Section Scanning.
Local Open Scope string_scope.

Variable p : matcher.
Hypothesis p_word : word_pattern p.

Lemma no_match_at_nonword (prev : bool) (s : string) :
  head_is_word s = false -> p prev s = None.
Proof.
  intros Hs. destruct (p prev s) as [n|] eqn:E; [|reflexivity].
  apply (anchored p p_word) in E. destruct E. congruence.
Qed.

Lemma no_match_after_word (s : string) : p true s = None.
Proof.
  destruct (p true s) as [n|] eqn:E; [|reflexivity].
  apply (anchored p p_word) in E. destruct E. discriminate.
Qed.

Lemma substring_local (n : nat) (a : string) (c : ascii) (b : string) :
  (n <= String.length a)%nat ->
  String.substring 0 n (a ++ String c b) = String.substring 0 n (a ++ String c "").
Proof.
  revert a. induction n as [|n IH]; intros a Hn.
  - destruct a; reflexivity.
  - destruct a as [|d a]; simpl in Hn; [lia|].
    norm_append. simpl. rewrite IH by lia. reflexivity.
Qed.

(** The search does not look at the previous code unit where the input
    starts with a non-word character. *)
Lemma match_from_nonword (prev : bool) (s : string) :
  head_is_word s = false -> match_from p prev 0 s = match_from p false 0 s.
Proof.
  intros Hs. destruct s as [|c s]; simpl.
  - rewrite !no_match_at_nonword by exact Hs. reflexivity.
  - rewrite !no_match_at_nonword by exact Hs. reflexivity.
Qed.

(** A non-word character splits the search in two. *)
Lemma match_from_split (c : ascii) (b : string) (a : string) :
  is_word c = false ->
  forall prev skip, (skip <= String.length a)%nat ->
  match_from p prev skip (a ++ String c b)
  = (match_from p prev skip (a ++ String c "") ++ match_from p false 0 b)%list.
Proof.
  intros Hc. induction a as [|d a IH]; intros prev skip Hskip.
  - simpl in Hskip. assert (skip = 0)%nat as -> by lia. norm_append.
    simpl. rewrite !no_match_at_nonword by (simpl; assumption || reflexivity).
    rewrite Hc. reflexivity.
  - norm_append. destruct skip as [|k].
    + cbn [match_from].
      destruct (local p p_word prev (String d a) c b Hc) as [Heq Hle].
      change (String d a ++ String c b) with (String d (a ++ String c b)) in Heq.
      change (String d a ++ String c "") with (String d (a ++ String c ""))
        in Heq, Hle.
      rewrite Heq.
      destruct (p prev (String d (a ++ String c ""))) as [n|] eqn:E.
      * specialize (Hle n eq_refl).
        pose proof (substring_local n (String d a) c b Hle) as Hsub.
        change (String d a ++ String c b) with (String d (a ++ String c b)) in Hsub.
        change (String d a ++ String c "") with (String d (a ++ String c ""))
          in Hsub.
        rewrite Hsub.
        simpl in Hle. rewrite IH by lia. reflexivity.
      * apply IH. lia.
    + cbn [match_from]. apply IH. simpl in Hskip. lia.
Qed.

(** Inside a run of word characters that follows a word character the
    pattern never matches. *)
Lemma match_from_word_run (w s : string) (skip : nat) :
  (forall i c, String.get i w = Some c -> is_word c = true) ->
  (skip <= String.length w)%nat -> w <> "" ->
  match_from p true skip (w ++ s) = match_from p true 0 s.
Proof.
  revert skip. induction w as [|d w IH]; intros skip Hw Hskip Hne; [congruence|].
  norm_append.
  assert (Hd : is_word d = true) by (apply (Hw 0%nat); reflexivity).
  assert (Hw' : forall i c, String.get i w = Some c -> is_word c = true)
    by (intros i c Hi; apply (Hw (S i)); exact Hi).
  assert (Hstep : forall k, (k <= String.length w)%nat ->
            match_from p (is_word d) k (w ++ s) = match_from p true 0 s).
  { intros k Hk. rewrite Hd. destruct w as [|e w].
    - simpl in Hk. assert (k = 0)%nat as -> by lia. reflexivity.
    - apply IH; [exact Hw' | exact Hk | discriminate]. }
  destruct skip as [|k]; cbn [match_from].
  - rewrite no_match_after_word. apply Hstep. lia.
  - apply Hstep. simpl in Hskip. lia.
Qed.

End Scanning.

Section Sample.
Local Open Scope string_scope.

Lemma consume_exact_app (cls : ascii -> bool) (w s : string) (prev : bool) :
  all_in cls w = true ->
  consume_exact cls (String.length w) prev (w ++ s) = Some (last_flag prev w, s).
Proof.
  revert prev. induction w as [|c w IH]; intros prev Hw; [reflexivity|].
  simpl in Hw. apply andb_true_iff in Hw as [Hc Hw].
  rewrite append_cons. simpl. rewrite Hc. apply IH, Hw.
Qed.

Lemma substring_prefix (a s : string) :
  String.substring 0 (String.length a) (a ++ s) = a.
Proof.
  induction a as [|c a IH]; [destruct s; reflexivity|].
  rewrite append_cons. simpl. rewrite IH. reflexivity.
Qed.

Lemma match_from_hit (p : matcher) (prev : bool) (c : ascii) (s : string) (n : nat) :
  p prev (String c s) = Some n ->
  match_from p prev 0 (String c s)
  = String.substring 0 n (String c s) :: match_from p (is_word c) (n - 1) s.
Proof. intros H. cbn [match_from]. rewrite H. reflexivity. Qed.

Lemma match_from_miss (p : matcher) (prev : bool) (c : ascii) (s : string) :
  p prev (String c s) = None ->
  match_from p prev 0 (String c s) = match_from p (is_word c) 0 s.
Proof. intros H. cbn [match_from]. rewrite H. reflexivity. Qed.

Lemma evm_pattern_sample (post : string) :
  delimited_right post ->
  evm_pattern false (String "0" (String "x" (sample_digits ++ post))) = Some 42%nat.
Proof.
  intros Hpost. unfold evm_pattern.
  change (word_boundary false (String "0" ?s)) with true. cbv iota.
  change (Ascii.eqb "0" "0" && Ascii.eqb "x" "x") with true. cbv iota.
  change 40%nat with (String.length sample_digits).
  rewrite consume_exact_app by reflexivity.
  change (last_flag (is_word "x") sample_digits) with true.
  unfold word_boundary. rewrite Hpost. reflexivity.
Qed.

Lemma sample_address_word (i : nat) (c : ascii) :
  String.get i sample_address = Some c -> is_word c = true.
Proof.
  unfold sample_address.
  do 42 (destruct i as [|i]; [intros H; injection H as <-; reflexivity|]).
  discriminate.
Qed.

Lemma fold_set_add_nil (l acc : list string) :
  fold_left set_add l acc = [] -> acc = [] /\ l = [].
Proof.
  revert acc. induction l as [|m l IH]; intros acc H; [auto|].
  simpl in H. apply IH in H as [H _]. unfold set_add in H.
  destruct (existsb (String.eqb m) acc) eqn:E.
  - subst acc. discriminate.
  - destruct acc; discriminate.
Qed.

Lemma extract_nil (text : string) :
  extractContractAddress text = [] ->
  match_all evm_pattern text = [] /\ match_all base58_pattern text = [].
Proof.
  unfold extractContractAddress, patterns. simpl. intros H.
  apply fold_set_add_nil in H as [H Hb]. apply fold_set_add_nil in H as [_ He].
  auto.
Qed.

(** The search of each pattern on the address followed by a delimited
    rest. *)
Lemma match_evm_sample (post : string) :
  delimited_right post ->
  match_from evm_pattern false 0 (sample_address ++ post)
  = sample_address :: match_all evm_pattern post.
Proof.
  intros Hpost. unfold delimited_right in Hpost.
  change (sample_address ++ post)
    with (String "0" (String "x" (sample_digits ++ post))).
  rewrite (match_from_hit _ _ _ _ _ (evm_pattern_sample post Hpost)).
  f_equal.
  - change (String "0" (String "x" (sample_digits ++ post)))
      with (sample_address ++ post).
    change 42%nat with (String.length sample_address).
    apply substring_prefix.
  - change (is_word "0") with true. change (42 - 1)%nat with 41%nat.
    change (String "x" (sample_digits ++ post))
      with (String "x" sample_digits ++ post).
    rewrite (match_from_word_run evm_pattern evm_pattern_word
               (String "x" sample_digits) post 41).
    + apply match_from_nonword; [exact evm_pattern_word | exact Hpost].
    + intros i c Hi. apply (sample_address_word (S i)). exact Hi.
    + simpl. lia.
    + discriminate.
Qed.

Lemma match_base58_sample (post : string) :
  delimited_right post ->
  match_from base58_pattern false 0 (sample_address ++ post)
  = match_all base58_pattern post.
Proof.
  intros Hpost.
  change (sample_address ++ post)
    with (String "0" (String "x" sample_digits ++ post)).
  rewrite match_from_miss by reflexivity.
  change (is_word "0") with true.
  rewrite (match_from_word_run base58_pattern base58_pattern_word
             (String "x" sample_digits) post 0).
  - apply match_from_nonword; [exact base58_pattern_word | exact Hpost].
  - intros i c Hi. apply (sample_address_word (S i)). exact Hi.
  - simpl. lia.
  - discriminate.
Qed.

(** Extraction on a text that contains the address between delimiters and
    no other address: exactly the address. *)
Theorem extractContractAddress_delimited (pre post : string) :
  delimited_left pre -> delimited_right post ->
  extractContractAddress pre = [] -> extractContractAddress post = [] ->
  extractContractAddress (pre ++ sample_address ++ post) = [sample_address].
Proof.
  intros Hpre Hpost Hnone_pre Hnone_post.
  apply extract_nil in Hnone_pre as [Hpre_e Hpre_b].
  apply extract_nil in Hnone_post as [Hpost_e Hpost_b].
  assert (He : match_all evm_pattern (pre ++ sample_address ++ post) = [sample_address]).
  { unfold match_all in *. destruct Hpre as [->|(a & c & -> & Hc)].
    - rewrite append_nil, match_evm_sample by exact Hpost.
      unfold match_all. rewrite Hpost_e. reflexivity.
    - rewrite append_assoc, append_cons, append_nil.
      rewrite (match_from_split evm_pattern evm_pattern_word) by (exact Hc || lia).
      rewrite Hpre_e, match_evm_sample by exact Hpost.
      unfold match_all. rewrite Hpost_e. reflexivity. }
  assert (Hb : match_all base58_pattern (pre ++ sample_address ++ post) = []).
  { unfold match_all in *. destruct Hpre as [->|(a & c & -> & Hc)].
    - rewrite append_nil, match_base58_sample by exact Hpost.
      unfold match_all. exact Hpost_b.
    - rewrite append_assoc, append_cons, append_nil.
      rewrite (match_from_split base58_pattern base58_pattern_word)
        by (exact Hc || lia).
      rewrite Hpre_b, match_base58_sample by exact Hpost.
      unfold match_all. exact Hpost_b. }
  unfold extractContractAddress, patterns. simpl. rewrite He, Hb. reflexivity.
Qed.

End Sample.

(** ** Contract addresses and chains *)

Section Addresses.
Local Open Scope string_scope.

(** Every address longer than 40 code units is classified as SOL, whatever
    the text says. *)
Lemma detectChain_long_address (text ca : string) :
  (40 < String.length ca)%nat -> detectChain text ca = SOL.
Proof.
  intros Hlen. unfold detectChain.
  apply Nat.ltb_lt in Hlen. rewrite Hlen, !orb_true_r. reflexivity.
Qed.

(** C1 (the code departs from the claim).  On the text
    "CA: 0xABCDEF0123456789ABCDEF0123456789ABCDEF01" the extraction returns
    exactly the address, but [detectChain] classifies it as SOL, not ETH:
    the address has 42 code units, more than 40, and the length test comes
    before the test of the 0x prefix.  This holds for every text. *)
Theorem detectChain_sample_address :
  extractContractAddress sample_text = [sample_address] /\
  detectChain sample_text sample_address = SOL /\
  forall text, detectChain text sample_address = SOL.
Proof.
  split; [vm_compute; reflexivity|].
  split; [reflexivity|].
  intros text. apply detectChain_long_address. simpl. lia.
Qed.

End Addresses.

(** ** Seen tokens *)

Section SeenTokens.


Section CleanUp.
Variables (now : Z) (cooldownMs : Q).

Lemma clean_fold_lookup (entries : list (string * Z)) (acc : gmap string Z)
    (key : string) :
  foldl (clean_step now cooldownMs) acc entries !! key =
  if existsb (fun e => bool_decide (fst e = key) && expired now cooldownMs (snd e))
       entries
  then None else acc !! key.
Proof.
  revert acc. induction entries as [|[k t] entries IH]; intros acc; simpl; [reflexivity|].
  rewrite IH. unfold clean_step. simpl.
  destruct (existsb _ entries); [rewrite orb_true_r; reflexivity|].
  rewrite orb_false_r.
  destruct (expired now cooldownMs t); simpl.
  - case_bool_decide as Hk.
    + subst. apply lookup_delete_eq.
    + simpl. apply lookup_delete_ne. exact Hk.
  - rewrite andb_false_r. reflexivity.
Qed.

(** What the clean-up loop leaves under a key. *)
Lemma clean_up_lookup (seen : gmap string Z) (key : string) :
  clean_up now cooldownMs seen !! key =
  match seen !! key with
  | Some t => if expired now cooldownMs t then None else Some t
  | None => None
  end.
Proof.
  unfold clean_up.
  change (foldl _ seen (map_to_list seen))
    with (foldl (clean_step now cooldownMs) seen (map_to_list seen)).
  rewrite clean_fold_lookup.
  destruct (existsb _ _) eqn:Hex.
  - apply existsb_exists in Hex as [[k t] [Hin Hkt]].
    apply andb_true_iff in Hkt as [Hk Ht]. apply bool_decide_eq_true in Hk.
    simpl in *. subst k.
    apply list_elem_of_In, elem_of_map_to_list in Hin. rewrite Hin, Ht. reflexivity.
  - destruct (seen !! key) as [t|] eqn:Hk; [|reflexivity].
    destruct (expired now cooldownMs t) eqn:Ht; [|reflexivity].
    exfalso. apply not_true_iff_false in Hex. apply Hex.
    apply existsb_exists. exists (key, t). split.
    + apply list_elem_of_In, elem_of_map_to_list. exact Hk.
    + simpl. rewrite Ht, bool_decide_eq_true_2; reflexivity.
Qed.

End CleanUp.



End SeenTokens.

(** * Further properties *)

(** ** Strings and matches *)

Section StringFacts.
Local Open Scope string_scope.

Lemma append_length (a b : string) :
  String.length (a ++ b) = (String.length a + String.length b)%nat.
Proof. induction a as [|c a IH]; [reflexivity|]. rewrite append_cons. simpl. lia. Qed.

Lemma append_empty_r (a : string) : a ++ "" = a.
Proof. induction a as [|c a IH]; [reflexivity|]. rewrite append_cons, IH. reflexivity. Qed.

Lemma last_flag_app (prev : bool) (a : string) (c : ascii) :
  last_flag prev (a ++ String c "") = is_word c.
Proof.
  revert prev. induction a as [|d a IH]; intros prev; [reflexivity|].
  rewrite append_cons. simpl. apply IH.
Qed.

Lemma last_flag_delimited (done : string) :
  last_flag false done = false -> delimited_left done.
Proof.
  assert (H : forall prev, last_flag prev done = false ->
            (done = "" /\ prev = false)
            \/ exists q c, done = q ++ String c "" /\ is_word c = false).
  { induction done as [|d done IH]; intros prev H; [left; auto|].
    right. simpl in H. destruct (IH _ H) as [[-> Hd]|(q & c & -> & Hc)].
    - exists "", d. auto.
    - exists (String d q), c. auto. }
  intros Hf. destruct (H false Hf) as [[-> _]|Hex]; [left; reflexivity|right; exact Hex].
Qed.

Lemma all_in_app (cls : ascii -> bool) (a b : string) :
  all_in cls (a ++ b) = all_in cls a && all_in cls b.
Proof.
  induction a as [|c a IH]; [reflexivity|].
  rewrite append_cons. simpl. rewrite IH, andb_assoc. reflexivity.
Qed.

Lemma last_flag_word (cls : ascii -> bool) (prev : bool) (d : string) :
  (forall c, cls c = true -> is_word c = true) ->
  all_in cls d = true -> d <> "" -> last_flag prev d = true.
Proof.
  intros Hcls. revert prev. induction d as [|c d IH]; intros prev Hd Hne; [congruence|].
  simpl in Hd. apply andb_true_iff in Hd as [Hc Hd]. simpl.
  destruct d as [|e d]; [simpl; apply Hcls, Hc|].
  apply IH; [exact Hd | discriminate].
Qed.

Lemma drop_units_app (m b : string) : drop_units (String.length m) (m ++ b) = b.
Proof. induction m as [|c m IH]; [reflexivity|]. rewrite append_cons. simpl. exact IH. Qed.

Lemma get_last_flag_cons (m b : string) (c : ascii) (prev : bool) :
  match String.get (String.length m) (String c (m ++ b)) with
  | Some x => is_word x
  | None => false
  end = last_flag prev (String c m).
Proof.
  revert c prev. induction m as [|d m IH]; intros c prev; [reflexivity|].
  rewrite append_cons.
  change (String.get (String.length (String d m)) (String c (String d (m ++ b))))
    with (String.get (String.length m) (String d (m ++ b))).
  rewrite (IH d (is_word c)). reflexivity.
Qed.

Lemma get_last_flag (m b : string) (prev : bool) :
  m <> "" ->
  match String.get (String.length m - 1) (m ++ b) with
  | Some c => is_word c
  | None => false
  end = last_flag prev m.
Proof.
  intros Hne. destruct m as [|c m]; [congruence|].
  rewrite append_cons.
  replace (String.length (String c m) - 1)%nat with (String.length m)
    by (simpl; lia).
  apply get_last_flag_cons.
Qed.

(** What [cls{n}] consumed. *)
Lemma consume_exact_sound (cls : ascii -> bool) (n : nat) (prev : bool)
    (s : string) (p' : bool) (rest : string) :
  consume_exact cls n prev s = Some (p', rest) ->
  exists d, s = d ++ rest /\ String.length d = n /\ all_in cls d = true
            /\ p' = last_flag prev d.
Proof.
  revert prev s. induction n as [|n IH]; intros prev s H.
  - injection H as <- <-. exists "". auto.
  - destruct s as [|c s]; [discriminate|]. simpl in H.
    destruct (cls c) eqn:Ec; [|discriminate].
    destruct (IH _ _ H) as (d & -> & Hlen & Hall & Hp).
    exists (String c d). rewrite append_cons. simpl. rewrite Ec, Hall, Hlen. auto.
Qed.

(** What the greedy repetition takes. *)
Lemma greedy_sound (cls : ascii -> bool) (max : nat) (s : string) :
  exists d rest, s = d ++ rest /\ String.length d = greedy cls max s
                 /\ all_in cls d = true /\ (String.length d <= max)%nat.
Proof.
  revert s. induction max as [|max IH]; intros s.
  - exists "", s. simpl. auto.
  - destruct s as [|c s]; [exists "", ""; simpl; repeat split; lia|].
    simpl. destruct (cls c) eqn:Ec.
    + destruct (IH s) as (d & rest & -> & Hlen & Hall & Hle).
      exists (String c d), rest. rewrite append_cons. simpl. rewrite Ec, Hall, Hlen.
      repeat split. lia.
    + exists "", (String c s). simpl. repeat split. lia.
Qed.

Lemma greedy_app (cls : ascii -> bool) (max : nat) (m b : string) :
  all_in cls m = true -> (String.length m <= max)%nat ->
  (forall c b', b = String c b' -> cls c = false) ->
  greedy cls max (m ++ b) = String.length m.
Proof.
  intros Hall Hle Hb. revert max Hle. induction m as [|c m IH]; intros max Hle.
  - simpl. destruct max; [reflexivity|]. destruct b as [|c b']; [reflexivity|].
    simpl. rewrite (Hb c b' eq_refl). reflexivity.
  - simpl in Hall. apply andb_true_iff in Hall as [Hc Hall].
    destruct max as [|max]; [simpl in Hle; lia|].
    rewrite append_cons. simpl. rewrite Hc. f_equal. apply IH; [exact Hall|].
    simpl in Hle. lia.
Qed.

Lemma backtrack_sound (s : string) (tries k n : nat) :
  backtrack s k tries = Some n ->
  (n <= k)%nat /\ (k < n + tries)%nat /\ boundary_after s n = true.
Proof.
  revert k. induction tries as [|t IH]; intros k H; [discriminate|].
  simpl in H. destruct (boundary_after s k) eqn:Eb.
  - injection H as <-. repeat split; [lia | lia | exact Eb].
  - destruct k as [|k]; [discriminate|].
    apply IH in H as (H1 & H2 & H3). repeat split; [lia | lia | exact H3].
Qed.

(** Splitting a string after [n] units. *)
Lemma split_at (n : nat) (d : string) :
  (n <= String.length d)%nat ->
  exists m d', d = m ++ d' /\ String.length m = n.
Proof.
  revert d. induction n as [|n IH]; intros d Hn; [exists "", d; auto|].
  destruct d as [|c d]; [simpl in Hn; lia|].
  destruct (IH d) as (m & d' & -> & Hm); [simpl in Hn; lia|].
  exists (String c m), d'. rewrite append_cons. simpl. auto.
Qed.

End StringFacts.

Section PatternShapes.
Local Open Scope string_scope.

Lemma evm_pattern_shape : matches_shape evm_pattern evm_shape.
Proof.
  split.
  - intros m (d & -> & _) H. discriminate H.
  - intros prev s n H. unfold evm_pattern in H.
    destruct (word_boundary prev s); [|discriminate].
    destruct s as [|c0 [|c1 s2]]; try discriminate.
    destruct (Ascii.eqb_spec c0 "0") as [->|]; [|discriminate].
    destruct (Ascii.eqb_spec c1 "x") as [->|]; [|discriminate].
    cbn [andb] in H.
    destruct (consume_exact is_hex 40 (is_word "x") s2) as [[p' rest]|] eqn:Ec;
      [|discriminate].
    destruct (word_boundary p' rest) eqn:Eb; [|discriminate].
    injection H as <-.
    apply consume_exact_sound in Ec as (d & -> & Hlen & Hall & ->).
    exists (String "0" (String "x" d)), rest.
    repeat split.
    + simpl. rewrite Hlen. reflexivity.
    + exists d. auto.
    + rewrite (last_flag_word is_hex) in Eb;
        [|exact hex_is_word|exact Hall|intros ->; discriminate].
      unfold word_boundary in Eb. destruct (head_is_word rest); [discriminate|reflexivity].
  - intros m b (d & -> & Hlen & Hall) Hb.
    rewrite !append_cons. unfold evm_pattern.
    change (word_boundary false (String "0" ?s)) with true. cbv iota.
    change (Ascii.eqb "0" "0" && Ascii.eqb "x" "x") with true. cbv iota.
    rewrite <- Hlen at 1. rewrite consume_exact_app by exact Hall.
    rewrite (last_flag_word is_hex);
      [|exact hex_is_word|exact Hall|intros ->; discriminate].
    unfold word_boundary. rewrite Hb. simpl. rewrite Hlen. reflexivity.
Qed.

Lemma base58_pattern_shape : matches_shape base58_pattern base58_shape.
Proof.
  split.
  - intros m [[Hlo _] _] ->. simpl in Hlo. lia.
  - intros prev s n H. unfold base58_pattern in H.
    destruct (word_boundary prev s); [|discriminate].
    destruct (32 <=? greedy is_base58 44 s)%nat eqn:Hg; [|discriminate].
    apply Nat.leb_le in Hg.
    apply backtrack_sound in H as (Hnk & Hkn & Hb).
    destruct (greedy_sound is_base58 44 s) as (d & rest & Hs & Hd & Hall & Hmax).
    destruct (split_at n d) as (m & d' & -> & Hm); [lia|].
    rewrite all_in_app in Hall. apply andb_true_iff in Hall as [Hallm _].
    assert (Hne : m <> "") by (intros ->; simpl in Hm; lia).
    exists m, (d' ++ rest). rewrite <- append_assoc.
    split; [exact Hs|]. split; [exact Hm|].
    split; [split; [lia | exact Hallm]|].
    rewrite Hs, append_assoc in Hb. unfold boundary_after in Hb.
    rewrite <- Hm in Hb. rewrite (get_last_flag m _ false Hne) in Hb.
    rewrite drop_units_app in Hb.
    rewrite (last_flag_word is_base58) in Hb;
      [|exact base58_is_word|exact Hallm|exact Hne].
    unfold word_boundary in Hb.
    destruct (head_is_word (d' ++ rest)); [discriminate|reflexivity].
  - intros m b [[Hlo Hhi] Hall] Hb.
    assert (Hne : m <> "") by (intros ->; simpl in Hlo; lia).
    assert (Hhead : head_is_word (m ++ b) = true).
    { destruct m as [|c m]; [congruence|]. simpl in Hall.
      apply andb_true_iff in Hall as [Hc _]. apply base58_is_word, Hc. }
    unfold base58_pattern, word_boundary. rewrite Hhead. simpl xorb. cbv iota.
    rewrite greedy_app; [|exact Hall|exact Hhi|].
    + apply Nat.leb_le in Hlo. rewrite Hlo.
      replace (String.length m - 32 + 1)%nat with (S (String.length m - 32)) by lia.
      cbn [backtrack]. unfold boundary_after.
      rewrite (get_last_flag m b false Hne), drop_units_app.
      rewrite (last_flag_word is_base58);
        [|exact base58_is_word|exact Hall|exact Hne].
      unfold word_boundary. rewrite Hb. reflexivity.
    + intros c b' ->. simpl in Hb.
      destruct (is_base58 c) eqn:Ec; [|reflexivity].
      apply base58_is_word in Ec. congruence.
Qed.

End PatternShapes.

Section ScanShapes.
Local Open Scope string_scope.

Variable p : matcher.
Variable shape : string -> Prop.
Hypothesis p_word : word_pattern p.
Hypothesis p_shape : matches_shape p shape.

(** Every match of the search is a string of the shape that stands
    between delimiters. *)
Lemma match_from_sound (m : string) (s : string) :
  forall done prev skip,
    prev = last_flag false done ->
    In m (match_from p prev skip s) ->
    exists a b, s = a ++ m ++ b /\ delimited_left (done ++ a)
                /\ delimited_right b /\ shape m.
Proof.
  induction s as [|c s IH]; intros done prev skip Hprev Hin.
  - simpl in Hin. rewrite (no_match_at_nonword p p_word) in Hin by reflexivity.
    destruct skip; contradiction.
  - assert (Hnext : forall k, In m (match_from p (is_word c) k s) ->
              exists a b, String c s = a ++ m ++ b /\ delimited_left (done ++ a)
                          /\ delimited_right b /\ shape m).
    { intros k Hk.
      destruct (IH (done ++ String c "") (is_word c) k) as (a & b & -> & Hl & Hr & Hs);
        [symmetry; apply last_flag_app | exact Hk |].
      exists (String c a), b. rewrite append_assoc in Hl. auto. }
    destruct skip as [|k]; cbn [match_from] in Hin; [|apply (Hnext k Hin)].
    destruct (p prev (String c s)) as [n|] eqn:Ehit; [|apply (Hnext _ Hin)].
    destruct Hin as [ <- | Hin ]; [|apply (Hnext _ Hin)].
    pose proof (anchored p p_word _ _ _ Ehit) as [Hfalse _].
    destruct (hit_sound p shape p_shape _ _ _ Ehit) as (m' & b & Hs & Hlen & Hsh & Hb).
    exists "", b. rewrite Hs, <- Hlen, substring_prefix, append_nil, append_empty_r.
    repeat split; [|exact Hb|exact Hsh].
    apply last_flag_delimited. congruence.
Qed.

(** Every string of the shape between delimiters is found. *)
Lemma match_all_complete (m pre post : string) :
  shape m -> delimited_left pre -> delimited_right post ->
  In m (match_all p (pre ++ m ++ post)).
Proof.
  intros Hs Hpre Hpost.
  assert (Hhere : forall prev, prev = false ->
            In m (match_from p prev 0 (m ++ post))).
  { intros prev ->.
    pose proof (hit_complete p shape p_shape m post Hs Hpost) as Hhit.
    pose proof (shape_nonempty p shape p_shape m Hs) as Hne.
    destruct m as [|c m']; [congruence|]. rewrite append_cons in *.
    rewrite (match_from_hit _ _ _ _ _ Hhit). left.
    rewrite <- append_cons. apply substring_prefix. }
  unfold match_all. destruct Hpre as [->|(a & c & -> & Hc)].
  - rewrite append_nil. apply Hhere. reflexivity.
  - rewrite append_assoc, append_cons, append_nil.
    rewrite (match_from_split p p_word) by (exact Hc || lia).
    apply in_or_app. right. apply Hhere. reflexivity.
Qed.

Lemma match_all_shape (m text : string) :
  In m (match_all p text) <-> shape m /\ occurs_delimited m text.
Proof.
  split.
  - intros Hin. destruct (match_from_sound m text "" false 0 eq_refl Hin)
      as (a & b & -> & Hl & Hr & Hs).
    rewrite append_nil in Hl. split; [exact Hs|]. exists a, b. auto.
  - intros [Hs (pre & post & -> & Hl & Hr)]. apply match_all_complete; assumption.
Qed.

End ScanShapes.

Section ExtractAll.
Local Open Scope string_scope.

Lemma set_add_In (matches : list string) (m x : string) :
  In x (set_add matches m) <-> In x matches \/ x = m.
Proof.
  unfold set_add. destruct (existsb (String.eqb m) matches) eqn:E.
  - split; [auto|]. intros [H | ->]; [exact H|].
    apply existsb_exists in E as (y & Hy & Heq).
    apply String.eqb_eq in Heq. subst. exact Hy.
  - rewrite in_app_iff. simpl. intuition.
Qed.

Lemma set_add_NoDup (matches : list string) (m : string) :
  NoDup matches -> NoDup (set_add matches m).
Proof.
  intros Hnd. unfold set_add. destruct (existsb (String.eqb m) matches) eqn:E;
    [exact Hnd|].
  apply NoDup_app; [exact Hnd | repeat constructor; simpl; tauto |].
  intros x Hx Hm. destruct Hm as [Hm | Hf]; [subst x|contradiction].
  apply not_true_iff_false in E. apply E. apply existsb_exists.
  exists m. split; [exact Hx | apply String.eqb_refl].
Qed.

Lemma fold_set_add_In (l matches : list string) (x : string) :
  In x (fold_left set_add l matches) <-> In x matches \/ In x l.
Proof.
  revert matches. induction l as [|m l IH]; intros matches; simpl; [tauto|].
  rewrite IH, set_add_In. intuition.
Qed.

Lemma fold_set_add_NoDup (l matches : list string) :
  NoDup matches -> NoDup (fold_left set_add l matches).
Proof.
  revert matches. induction l as [|m l IH]; intros matches H; [exact H|].
  simpl. apply IH, set_add_NoDup, H.
Qed.

Lemma extracted_shape (text m : string) :
  In m (extractContractAddress text) -> address_shape m /\ occurs_delimited m text.
Proof.
  unfold extractContractAddress, patterns. simpl.
  rewrite !fold_set_add_In.
  rewrite (match_all_shape _ _ evm_pattern_word evm_pattern_shape).
  rewrite (match_all_shape _ _ base58_pattern_word base58_pattern_shape).
  unfold address_shape. simpl. tauto.
Qed.

(** The addresses returned for a text are exactly the strings of address
    shape (0x and 40 hexadecimal digits, or 32 to 44 base58 digits) that
    occur in it with no word character directly before or after. *)
Theorem extractContractAddress_spec (text m : string) :
  In m (extractContractAddress text) <-> address_shape m /\ occurs_delimited m text.
Proof.
  unfold extractContractAddress, patterns. simpl.
  rewrite !fold_set_add_In.
  rewrite (match_all_shape _ _ evm_pattern_word evm_pattern_shape).
  rewrite (match_all_shape _ _ base58_pattern_word base58_pattern_shape).
  unfold address_shape. simpl. tauto.
Qed.

(** The result has no duplicates. *)
Theorem extractContractAddress_NoDup (text : string) :
  NoDup (extractContractAddress text).
Proof.
  unfold extractContractAddress, patterns. simpl.
  apply fold_set_add_NoDup, fold_set_add_NoDup. constructor.
Qed.

End ExtractAll.

(** ** Addresses, chains and risk *)

Section HunterMore.
Local Open Scope string_scope.

Lemma prefix_cons (a b : ascii) (p s : string) :
  String.prefix (String a p) (String b s)
  = if Ascii.ascii_dec a b then String.prefix p s else false.
Proof. reflexivity. Qed.

Lemma prefix_app (p q s : string) :
  String.prefix (p ++ q) s = true -> String.prefix p s = true.
Proof.
  revert s. induction p as [|c p IH]; intros s H; [destruct s; reflexivity|].
  rewrite append_cons in H. destruct s as [|d s]; [discriminate|]. simpl in *.
  destruct (Ascii.ascii_dec c d); [apply IH, H | discriminate].
Qed.

Lemma includes_app (s p q : string) :
  includes s (p ++ q) = true -> includes s p = true.
Proof.
  induction s as [|c s IH]; cbn [includes]; intros H.
  - destruct (String.prefix (p ++ q) "") eqn:E; [|discriminate].
    rewrite (prefix_app _ _ _ E). reflexivity.
  - destruct (String.prefix (p ++ q) (String c s)) eqn:E.
    + rewrite (prefix_app _ _ _ E). reflexivity.
    + rewrite (IH H). destruct (String.prefix p (String c s)); reflexivity.
Qed.

Lemma evm_shape_length (m : string) : evm_shape m -> String.length m = 42%nat.
Proof. intros (d & -> & Hlen & _). simpl. rewrite Hlen. reflexivity. Qed.

Lemma base58_shape_no_0x (m : string) : base58_shape m -> startsWith m "0x" = false.
Proof.
  intros [[Hlo _] Hall]. destruct m as [|c m]; [reflexivity|].
  simpl in Hall. apply andb_true_iff in Hall as [Hc _].
  unfold startsWith. rewrite prefix_cons.
  destruct (Ascii.ascii_dec "0" c) as [<-|]; [discriminate|reflexivity].
Qed.

Lemma sample_extracted : In sample_address (extractContractAddress sample_text).
Proof. vm_compute. left. reflexivity. Qed.

(** Addresses that [extractContractAddress] returns, passed to
    [detectChain] with any text: a 0x address is always SOL, and ETH is
    answered only for a text that names it. *)
Theorem detectChain_of_extracted (text text' ca : string) :
  In ca (extractContractAddress text) ->
  (startsWith ca "0x" = true -> detectChain text' ca = SOL)
  /\ (detectChain text' ca = ETH -> includes (toLowerCase text') "eth" = true).
Proof.
  intros Hin. apply extracted_shape in Hin as [[Hevm|Hb58] _].
  - assert (Hsol : detectChain text' ca = SOL).
    { apply detectChain_long_address. rewrite (evm_shape_length ca Hevm). lia. }
    split; [intros _; exact Hsol|]. rewrite Hsol. discriminate.
  - rewrite (base58_shape_no_0x ca Hb58). split; [discriminate|].
    unfold detectChain. rewrite (base58_shape_no_0x ca Hb58).
    destruct (_ || _ || _); [discriminate|].
    destruct (includes _ "base"); [discriminate|].
    destruct (_ || _); [discriminate|].
    destruct (includes (toLowerCase text') "ethereum") eqn:E1.
    + intros _. apply (includes_app _ "eth" "ereum"), E1.
    + destruct (includes (toLowerCase text') "eth"); [reflexivity|discriminate].
Qed.

Lemma detectChain_of_extracted_witness :
  detectChain "bridged to eth"%string sample_address = SOL.
Proof.
  apply (detectChain_of_extracted sample_text "bridged to eth"%string sample_address);
    [exact sample_extracted | reflexivity].
Defined.

(** A text shorter than 32 code units holds no address. *)
Theorem extractContractAddress_short (text : string) :
  (String.length text < 32)%nat -> extractContractAddress text = [].
Proof.
  intros Hlen. destruct (extractContractAddress text) as [|m l] eqn:E; [reflexivity|].
  exfalso.
  assert (Hin : In m (extractContractAddress text))
    by (rewrite E; left; reflexivity).
  apply extracted_shape in Hin as [Hshape (pre & post & -> & _)].
  rewrite !append_length in Hlen.
  destruct Hshape as [Hevm|[[Hlo _] _]].
  - rewrite (evm_shape_length m Hevm) in Hlen. lia.
  - lia.
Qed.

Lemma extractContractAddress_short_witness :
  extractContractAddress "CA: 0xABCDEF0123456789" = [].
Proof. apply extractContractAddress_short. simpl. lia. Defined.

End HunterMore.

Section ChainMore.
Local Open Scope string_scope.

Lemma lower_unit_idem (c : ascii) : lower_unit (lower_unit c) = lower_unit c.
Proof. destruct c as [[] [] [] [] [] [] [] []]; reflexivity. Qed.

Lemma toLowerCase_idem (s : string) : toLowerCase (toLowerCase s) = toLowerCase s.
Proof.
  induction s as [|c s IH]; [reflexivity|].
  simpl. rewrite lower_unit_idem, IH. reflexivity.
Qed.

(** The chain of an address, test by test: SOL iff the lowercased text
    includes "sol" or the address is longer than 40 code units; otherwise
    BASE iff the text includes "base"; otherwise BSC iff it includes "bsc"
    or "binance smart chain"; otherwise ETH iff it includes "eth" or the
    address starts with 0x; otherwise UNKNOWN.  The tests for "solana" and
    "ethereum" never decide. *)
Theorem detectChain_cases (text ca : string) :
  let lowerText := toLowerCase text in
  let sol := includes lowerText "sol" = true \/ (40 < String.length ca)%nat in
  let base := includes lowerText "base" = true in
  let bsc := includes lowerText "bsc" = true
             \/ includes lowerText "binance smart chain" = true in
  let eth := includes lowerText "eth" = true \/ startsWith ca "0x" = true in
  (detectChain text ca = SOL <-> sol)
  /\ (detectChain text ca = BASE <-> ~ sol /\ base)
  /\ (detectChain text ca = BSC <-> ~ sol /\ ~ base /\ bsc)
  /\ (detectChain text ca = ETH <-> ~ sol /\ ~ base /\ ~ bsc /\ eth)
  /\ (detectChain text ca = UNKNOWN <-> ~ sol /\ ~ base /\ ~ bsc /\ ~ eth).
Proof.
  cbv zeta. unfold detectChain.
  pose proof (includes_app (toLowerCase text) "sol" "ana") as Hsol.
  pose proof (includes_app (toLowerCase text) "eth" "ereum") as Heth.
  change ("sol" ++ "ana") with "solana" in Hsol.
  change ("eth" ++ "ereum") with "ethereum" in Heth.
  rewrite <- (Nat.ltb_lt 40 (String.length ca)).
  destruct (includes (toLowerCase text) "solana");
    destruct (includes (toLowerCase text) "sol");
    destruct (40 <? String.length ca)%nat;
    destruct (includes (toLowerCase text) "base");
    destruct (includes (toLowerCase text) "bsc");
    destruct (includes (toLowerCase text) "binance smart chain");
    destruct (includes (toLowerCase text) "ethereum");
    destruct (includes (toLowerCase text) "eth");
    destruct (startsWith ca "0x");
    try (specialize (Hsol eq_refl); discriminate Hsol);
    try (specialize (Heth eq_refl); discriminate Heth);
    clear Hsol Heth; simpl; intuition congruence.
Qed.

(** Neither heuristic looks at the case of the text. *)
Theorem heuristics_ignore_case (text ca : string) :
  detectChain (toLowerCase text) ca = detectChain text ca
  /\ assessRisk (toLowerCase text) = assessRisk text.
Proof.
  unfold detectChain, assessRisk, riskScore. rewrite toLowerCase_idem.
  split; reflexivity.
Qed.

End ChainMore.

Section RiskMore.
Local Open Scope string_scope.

Lemma fold_keywords (lowerText : string) (delta : Z) (keywords : list string)
    (score : Z) :
  fold_left
    (fun score keyword => if includes lowerText keyword then (score + delta)%Z else score)
    keywords score
  = (score + delta * Z.of_nat (occurring lowerText keywords))%Z.
Proof.
  unfold occurring. revert score.
  induction keywords as [|k keywords IH]; intros score; simpl; [lia|].
  rewrite IH. destruct (includes lowerText k); simpl List.length; lia.
Qed.

Lemma occurring_le (lowerText : string) (keywords : list string) :
  (occurring lowerText keywords <= List.length keywords)%nat.
Proof. unfold occurring. apply List.filter_length_le. Qed.

(** The score is twice the number of high-risk keywords that occur in the
    lowercased text, less the number of the first five positive keywords
    that occur in it: a keyword counts once however often it occurs, and
    the score lies between -5 and 12. *)
Theorem riskScore_count (text : string) :
  let high := occurring (toLowerCase text) highRiskKeywords in
  let positive := occurring (toLowerCase text) effective_positive in
  riskScore text = (2 * Z.of_nat high - Z.of_nat positive)%Z
  /\ (-5 <= riskScore text <= 12)%Z
  /\ (high = 0%nat -> assessRisk text = MEDIUM \/ assessRisk text = LOW)
  /\ (positive = 0%nat -> assessRisk text <> LOW).
Proof.
  intros high positive.
  assert (Hscore : riskScore text = (2 * Z.of_nat high - Z.of_nat positive)%Z).
  { unfold riskScore.
    change (fun score keyword =>
              if includes (toLowerCase text) keyword then (score - 1)%Z else score)
      with (fun score keyword =>
              if includes (toLowerCase text) keyword then (score + -1)%Z else score).
    rewrite !fold_keywords. fold high.
    change positiveKeywords with (effective_positive ++ ["LP locked"])%list.
    unfold occurring at 1. rewrite List.filter_app, List.length_app. simpl List.filter at 2.
    rewrite (includes_lower_capital text "L" "P locked") by reflexivity.
    fold (occurring (toLowerCase text) effective_positive). fold positive.
    simpl List.length. lia. }
  pose proof (occurring_le (toLowerCase text) highRiskKeywords) as Hh.
  pose proof (occurring_le (toLowerCase text) effective_positive) as Hp.
  fold high in Hh. fold positive in Hp. simpl in Hh, Hp.
  split; [exact Hscore|]. split; [lia|].
  unfold assessRisk, risk_level. rewrite Hscore. split.
  - intros ->. simpl Z.of_nat.
    destruct (4 <=? _)%Z eqn:E4; [apply Z.leb_le in E4; lia|].
    destruct (2 <=? _)%Z eqn:E2; [apply Z.leb_le in E2; lia|].
    destruct (0 <=? _)%Z; auto.
  - intros ->. simpl Z.of_nat.
    destruct (4 <=? _)%Z; [discriminate|].
    destruct (2 <=? _)%Z; [discriminate|].
    destruct (0 <=? _)%Z eqn:E0; [discriminate|]. apply Z.leb_gt in E0. lia.
Qed.

Lemma riskScore_count_witness :
  riskScore "SCAM, avoid! Not safe"%string = 3%Z
  /\ (assessRisk "to the moon"%string = MEDIUM \/ assessRisk "to the moon"%string = LOW).
Proof.
  split.
  - apply (riskScore_count "SCAM, avoid! Not safe"%string).
  - apply (riskScore_count "to the moon"%string). reflexivity.
Defined.

End RiskMore.

Section SeenMore.
Local Open Scope string_scope.

Lemma key_split (a1 a2 c1 c2 : string) :
  all_in not_underscore a1 = true -> all_in not_underscore a2 = true ->
  a1 ++ "_" ++ c1 = a2 ++ "_" ++ c2 -> a1 = a2 /\ c1 = c2.
Proof.
  revert a2. induction a1 as [|x a1 IH]; intros a2 H1 H2 Heq.
  - destruct a2 as [|y a2].
    + rewrite ?append_cons, ?append_nil in Heq. injection Heq as ->. auto.
    + rewrite ?append_cons, ?append_nil in Heq. injection Heq as <- _.
      simpl in H2. discriminate.
  - destruct a2 as [|y a2].
    + rewrite ?append_cons, ?append_nil in Heq. injection Heq as -> _.
      simpl in H1. discriminate.
    + rewrite !(append_cons _ a1), !(append_cons _ a2) in Heq.
      injection Heq as -> Heq.
      simpl in H1, H2. apply andb_true_iff in H1 as [_ H1].
      apply andb_true_iff in H2 as [_ H2].
      destruct (IH a2 H1 H2 Heq) as [-> ->]. auto.
Qed.

Lemma all_in_weaken (cls cls' : ascii -> bool) (m : string) :
  (forall c, cls c = true -> cls' c = true) ->
  all_in cls m = true -> all_in cls' m = true.
Proof.
  intros Hc. induction m as [|c m IH]; [reflexivity|]. simpl.
  intros H. apply andb_true_iff in H as [H1 H2].
  rewrite (Hc c H1), (IH H2). reflexivity.
Qed.

Lemma hex_not_underscore (c : ascii) : is_hex c = true -> not_underscore c = true.
Proof. destruct c as [[] [] [] [] [] [] [] []]; vm_compute; intros H; congruence. Qed.

Lemma base58_not_underscore (c : ascii) :
  is_base58 c = true -> not_underscore c = true.
Proof. destruct c as [[] [] [] [] [] [] [] []]; vm_compute; intros H; congruence. Qed.

Lemma address_shape_no_underscore (m : string) :
  address_shape m -> all_in not_underscore m = true.
Proof.
  intros [(d & -> & _ & Hall)|[_ Hall]].
  - simpl. apply (all_in_weaken is_hex), Hall. exact hex_not_underscore.
  - apply (all_in_weaken is_base58), Hall. exact base58_not_underscore.
Qed.

(** Two extracted addresses with their chains never share a key of the
    seen-token map unless they are the same address and chain; so marking
    one token leaves the entry of every other token as it was. *)
Theorem markAsSeen_key_injective (text1 text2 ca1 ca2 chain1 chain2 : string)
    (hunter : Hunter) (now : Z) :
  In ca1 (extractContractAddress text1) ->
  In ca2 (extractContractAddress text2) ->
  let key := ca2 ++ "_" ++ chain2 in
  (ca1 ++ "_" ++ chain1 = key -> ca1 = ca2 /\ chain1 = chain2)
  /\ (~ (ca1 = ca2 /\ chain1 = chain2) ->
      seenTokens (fst (markAsSeen hunter ca1 chain1 now)) !! key
      = seenTokens hunter !! key).
Proof.
  intros H1 H2 key. apply extracted_shape in H1 as [H1 _].
  apply extracted_shape in H2 as [H2 _].
  assert (Hinj : ca1 ++ "_" ++ chain1 = key -> ca1 = ca2 /\ chain1 = chain2)
    by (apply key_split; apply address_shape_no_underscore; assumption).
  split; [exact Hinj|].
  intros Hne. unfold markAsSeen. cbn [fst seenTokens].
  apply lookup_insert_ne. intros Heq. apply Hne, Hinj, Heq.
Qed.

Lemma markAsSeen_key_injective_witness :
  seenTokens (fst (markAsSeen (init None None 0) sample_address "SOL" 5))
    !! (sample_address ++ "_" ++ "ETH")%string = None.
Proof.
  destruct (markAsSeen_key_injective sample_text sample_text
              sample_address sample_address "SOL" "ETH" (init None None 0) 5
              sample_extracted sample_extracted) as [_ Hother].
  rewrite Hother; [reflexivity|]. intros [_ H]. discriminate H.
Defined.

End SeenMore.

(** ** Seen tokens across restarts *)

Section Restart.
Local Open Scope string_scope.

Lemma expired_later (now now' : Z) (cooldownMs : Q) (timestamp : Z) :
  (now <= now')%Z ->
  expired now cooldownMs timestamp = true ->
  expired now' cooldownMs timestamp = true.
Proof.
  unfold expired. rewrite !gt_Fin. intros Hle H.
  assert (inject_Z (now - timestamp) <= inject_Z (now' - timestamp))
    by (rewrite <- Zle_Qle; lia).
  lra.
Qed.

Lemma seenTokens_init (configFile : option Config) (parsed : gmap string Z)
    (now : Z) (key : string) :
  seenTokens (init configFile (Some parsed) now) !! key =
  match parsed !! key with
  | Some t =>
      if expired now
           (alert_cooldown_hours (config (init configFile (Some parsed) now))
            * 60 * 60 * 1000) t
      then None else Some t
  | None => None
  end.
Proof. unfold init. simpl. apply clean_up_lookup. Qed.



(** Loading never adds or changes an entry, and a load at a later time
    of what an earlier load kept gives what a single load at the later
    time gives. *)
Theorem init_restart (configFile : option Config) (parsed : gmap string Z)
    (now now' : Z) :
  (now <= now')%Z ->
  let first := init configFile (Some parsed) now in
  seenTokens first ⊆ parsed
  /\ seenTokens (init configFile (Some (saveSeenTokens first)) now')
     = seenTokens (init configFile (Some parsed) now').
Proof.
  intros Hle first. split.
  - apply map_subseteq_spec. intros key t. unfold first.
    rewrite seenTokens_init. destruct (parsed !! key) as [t'|]; [|discriminate].
    destruct (expired _ _ t'); [discriminate|]. intros H. exact H.
  - apply map_eq. intros key. unfold saveSeenTokens, first.
    rewrite !seenTokens_init.
    change (alert_cooldown_hours (config (init configFile (Some ?m) ?n)))
      with (alert_cooldown_hours (config (init configFile None 0))).
    set (cd := alert_cooldown_hours (config (init configFile None 0)) * 60 * 60 * 1000).
    destruct (parsed !! key) as [t|]; [|reflexivity].
    destruct (expired now cd t) eqn:E; [|reflexivity].
    rewrite (expired_later now now' cd t Hle E). reflexivity.
Qed.

Lemma init_restart_witness :
  seenTokens (init None (Some (saveSeenTokens (init None (Some sample_seen) 90000000)))
                100000000)
  = seenTokens (init None (Some sample_seen) 100000000).
Proof.
  apply (init_restart None sample_seen 90000000 100000000). lia.
Defined.

End Restart.

(** ** The relative strength index in closed form *)

Section RSIFormula.













End RSIFormula.

Section RSIEdges.








Lemma slice_last_app {A : Type} (n : nat) (old arr : list A) :
  (n <= List.length arr)%nat -> slice_last n (old ++ arr) = slice_last n arr.
Proof.
  intros Hn. unfold slice_last. rewrite List.length_app, List.skipn_app.
  rewrite List.skipn_all2 by lia. simpl. f_equal. lia.
Qed.

(** Candles older than the last 15 have no influence on the result. *)
Theorem analyzeKline_recent (alerts : PriceAlerts) (old klines : list Candle) :
  (15 <= List.length klines)%nat ->
  analyzeKline alerts (Some (old ++ klines)) = analyzeKline alerts (Some klines).
Proof.
  intros Hlen. unfold analyzeKline.
  assert (H1 : (List.length (old ++ klines) <? 3)%nat = false)
    by (apply Nat.ltb_ge; rewrite List.length_app; lia).
  assert (H2 : (List.length klines <? 3)%nat = false) by (apply Nat.ltb_ge; lia).
  rewrite H1, H2, !(slice_last_app _ old klines) by lia. reflexivity.
Qed.

Lemma analyzeKline_recent_witness :
  analyzeKline default_price_alerts (Some (closes_10 ++ rising))
  = analyzeKline default_price_alerts (Some rising).
Proof. apply analyzeKline_recent. simpl. lia. Defined.

End RSIEdges.

(** ** Trend, strength and volume of an analysis *)

Section EngineMore.







End EngineMore.

Section EngineFields.










End EngineFields.

Section EngineMonotone.






End EngineMonotone.

(** ** Signals of a market *)

Section AggregatorMore.

(** The signals come in the fixed order consensus, RSI, volatility,
    volume, with at most one signal of each kind. *)
Theorem generateMarketSignals_order (priceData : PriceData)
    (klineAnalysis : TimeframeAnalysis) :
  StronglySorted (fun a b => (rank a < rank b)%nat)
    (generateMarketSignals priceData klineAnalysis).
Proof.
  rewrite generateMarketSignals_rules.
  unfold consensus_signal, rsi_signals, volatility_signals, volume_signals.
  rule_cases priceData klineAnalysis; simpl;
    repeat (constructor; simpl; try lia).
Qed.

Lemma abs_gt_5 (c : Q) :
  Num.gt (Num.abs (Fin c)) (Fin 5) = true <-> 5 < c \/ c < -5.
Proof.
  cbn [Num.abs]. rewrite gt_Fin. split.
  - intros H. destruct (Qlt_le_dec c 0) as [Hn|Hp].
    + rewrite Qabs_neg in H by lra. right. lra.
    + rewrite Qabs_pos in H by lra. left. lra.
  - intros [H|H].
    + rewrite Qabs_pos by lra. lra.
    + rewrite Qabs_neg by lra. lra.
Qed.

(** The volatility signal is emitted iff the 24h change is above 5 or
    below -5 and carries that change; nothing else of the price data has
    an influence on the signals. *)
Theorem generateMarketSignals_volatility (priceData : PriceData)
    (klineAnalysis : TimeframeAnalysis) :
  let signals := generateMarketSignals priceData klineAnalysis in
  (forall c, In (HighVolatility c) signals
             <-> c = change24h priceData /\ (5 < c \/ c < -5))
  /\ (forall priceData',
        change24h priceData' = change24h priceData ->
        generateMarketSignals priceData' klineAnalysis = signals).
Proof.
  cbv zeta. split.
  - intros c. rewrite generateMarketSignals_rules. cbn [In].
    rewrite !in_app_iff.
    assert (H1 : consensus_signal klineAnalysis <> HighVolatility c).
    { unfold consensus_signal.
      destruct (3 <=? _)%nat; [discriminate|].
      destruct (3 <=? _)%nat; discriminate. }
    assert (H2 : ~ In (HighVolatility c) (rsi_signals klineAnalysis)).
    { unfold rsi_signals.
      destruct (Num.gt _ _); [simpl; intuition discriminate|].
      destruct (Num.lt _ _); simpl; intuition discriminate. }
    assert (H3 : ~ In (HighVolatility c) (volume_signals klineAnalysis)).
    { unfold volume_signals. destruct (existsb _ _); simpl; intuition discriminate. }
    assert (H4 : In (HighVolatility c) (volatility_signals priceData)
                 <-> c = change24h priceData /\ (5 < c \/ c < -5)).
    { unfold volatility_signals.
      destruct (Num.gt (Num.abs (Fin (change24h priceData))) (Fin 5)) eqn:E.
      - apply abs_gt_5 in E. simpl. split.
        + intros [H | []]. injection H as <-. split; [reflexivity | exact E].
        + intros [-> _]. left. reflexivity.
      - simpl. split; [tauto|]. intros [-> H]. apply abs_gt_5 in H. congruence. }
    tauto.
  - intros priceData' Hc. rewrite !generateMarketSignals_rules.
    unfold volatility_signals. rewrite Hc. reflexivity.
Qed.

(** The volume signal is emitted iff the volumeSpike of some timeframe
    is true. *)
Theorem generateMarketSignals_volume (priceData : PriceData)
    (klineAnalysis : TimeframeAnalysis) :
  In UnusualVolume (generateMarketSignals priceData klineAnalysis)
  <-> exists label a, In (label, a) klineAnalysis /\ volumeSpike a = Some true.
Proof.
  rewrite In_generateMarketSignals_volume, existsb_exists. unfold values. split.
  - intros (a & Hin & Ht). apply in_map_iff in Hin as ([label a'] & <- & Hin).
    exists label, a'. split; [exact Hin|]. simpl in Ht.
    destruct (volumeSpike a') as [[|]|]; try discriminate. reflexivity.
  - intros (label & a & Hin & Hv). exists a. split.
    + apply in_map_iff. exists (label, a). split; [reflexivity | exact Hin].
    + rewrite Hv. reflexivity.
Qed.

Lemma timeframes_with_le (t : Trend) (klineAnalysis : TimeframeAnalysis) :
  (timeframes_with t klineAnalysis <= List.length klineAnalysis)%nat.
Proof.
  unfold timeframes_with, values.
  pose proof (count_occ_bound Trend_eq_dec t
                (List.map trend (List.map snd klineAnalysis))) as H.
  rewrite !List.length_map in H. exact H.
Qed.

(** With fewer than 3 timeframes the consensus is always the mixed one;
    for the empty mapping the mean RSI is not a number and no RSI or
    volume signal is emitted. *)
Theorem generateMarketSignals_few_timeframes (priceData : PriceData)
    (klineAnalysis : TimeframeAnalysis) :
  (List.length klineAnalysis < 3)%nat ->
  (exists rest, generateMarketSignals priceData klineAnalysis = MixedSignals :: rest)
  /\ (klineAnalysis = [] ->
      generateMarketSignals priceData klineAnalysis
      = MixedSignals :: volatility_signals priceData).
Proof.
  intros Hlen. split.
  - rewrite generateMarketSignals_rules. eexists. f_equal.
    unfold consensus_signal.
    pose proof (timeframes_with_le bullish klineAnalysis).
    pose proof (timeframes_with_le bearish klineAnalysis).
    destruct (Nat.leb_spec 3 (timeframes_with bullish klineAnalysis)); [lia|].
    destruct (Nat.leb_spec 3 (timeframes_with bearish klineAnalysis)); [lia|].
    reflexivity.
  - intros ->. rewrite generateMarketSignals_rules.
    change (MixedSignals :: [] ++ volatility_signals priceData ++ []
            = MixedSignals :: volatility_signals priceData).
    rewrite List.app_nil_r. reflexivity.
Qed.

Lemma generateMarketSignals_few_timeframes_witness :
  generateMarketSignals sample_price [] = [MixedSignals]
  /\ exists rest, generateMarketSignals sample_price calm_analysis = MixedSignals :: rest.
Proof.
  split.
  - apply (generateMarketSignals_few_timeframes sample_price []);
      [simpl; lia | reflexivity].
  - apply (generateMarketSignals_few_timeframes sample_price calm_analysis).
    simpl. lia.
Defined.

End AggregatorMore.

Section Market.













End Market.

Section EngineRSI.



End EngineRSI.
